(** * SEM line-pattern metrology: a model of [Analysis/ImageProcessing.py]

    The Python module turns a grey-scale SEM image into calibrated
    measurements.  Every function of the module that the properties below
    talk about is transcribed here as a Rocq function:

    - Python exceptions are values of [exn]; a function that may raise
      returns a [result];
    - a 1-D numpy array is a [list], a 2-D image a list of rows;
    - a float is an exact rational extended with the IEEE special values
      ([float64]); rounding is not modelled, numpy's division by zero
      (nan / inf, no exception) and Python's ([ZeroDivisionError]) are;
    - library calls whose values are irrational (square root, arctangent,
      the Butterworth coefficients) and the two image-analysis collaborators
      (OCR, Canny + Hough) are parameters of the development. *)

From Stdlib Require Import Ascii String.
From Stdlib Require Import ZArith QArith Qabs List Sorted Bool Lia Lqa.
Import ListNotations.

Open Scope Z_scope.

(** ** Exceptions and results *)

Inductive exn : Type :=
| ValueError
| IndexError
| ZeroDivisionError
| TypeError.

Inductive result (A : Type) : Type :=
| Ok (a : A)
| Raise (e : exn).

Arguments Ok {A} a.
Arguments Raise {A} e.

Definition bind {A B : Type} (r : result A) (k : A -> result B) : result B :=
  match r with
  | Ok a => k a
  | Raise e => Raise e
  end.

Notation "x <- e ;; k" := (bind e (fun x => k))
  (at level 61, e at next level, right associativity).

(** A list comprehension / [for] loop whose body may raise: the first
    exception aborts the loop. *)
Fixpoint mapM {A B : Type} (f : A -> result B) (l : list A) : result (list B) :=
  match l with
  | [] => Ok []
  | a :: t => b <- f a ;; bs <- mapM f t ;; Ok (b :: bs)
  end.

Definition is_ok {A : Type} (r : result A) : bool :=
  match r with Ok _ => true | Raise _ => false end.

(** ** Floats *)

Inductive float64 : Type :=
| Fin (q : Q)
| PInf
| NInf
| NaN.

Definition Qltb (a b : Q) : bool := negb (Qle_bool b a).

Definition of_Z (z : Z) : float64 := Fin (inject_Z z).

Definition fopp (x : float64) : float64 :=
  match x with
  | Fin q => Fin (- q)
  | PInf => NInf
  | NInf => PInf
  | NaN => NaN
  end.

Definition fadd (x y : float64) : float64 :=
  match x, y with
  | NaN, _ | _, NaN => NaN
  | Fin a, Fin b => Fin (a + b)
  | PInf, NInf | NInf, PInf => NaN
  | PInf, _ | _, PInf => PInf
  | NInf, _ | _, NInf => NInf
  end.

Definition fsub (x y : float64) : float64 :=
  match x, y with
  | NaN, _ | _, NaN => NaN
  | Fin a, Fin b => Fin (a - b)
  | PInf, PInf | NInf, NInf => NaN
  | PInf, _ | _, NInf => PInf
  | NInf, _ | _, PInf => NInf
  end.

(** Sign of an infinity scaled by a finite factor; zero times infinity is
    not a number. *)
Definition signed_inf (positive : bool) (q : Q) : float64 :=
  if Qeq_bool q 0 then NaN
  else if Bool.eqb positive (Qltb 0 q) then PInf else NInf.

Definition fmul (x y : float64) : float64 :=
  match x, y with
  | NaN, _ | _, NaN => NaN
  | Fin a, Fin b => Fin (a * b)
  | Fin a, PInf | PInf, Fin a => signed_inf true a
  | Fin a, NInf | NInf, Fin a => signed_inf false a
  | PInf, PInf | NInf, NInf => PInf
  | PInf, NInf | NInf, PInf => NInf
  end.

(** numpy's [/] on floats: a zero divisor gives nan or an infinity (and a
    warning), never an exception. *)
Definition fdiv (x y : float64) : float64 :=
  match x, y with
  | NaN, _ | _, NaN => NaN
  | Fin a, Fin b =>
      if Qeq_bool b 0
      then (if Qeq_bool a 0 then NaN else if Qltb 0 a then PInf else NInf)
      else Fin (a / b)
  | Fin _, (PInf | NInf) => Fin 0
  | PInf, Fin b => if Qltb b 0 then NInf else PInf
  | NInf, Fin b => if Qltb b 0 then PInf else NInf
  | (PInf | NInf), (PInf | NInf) => NaN
  end.

Definition fabs (x : float64) : float64 :=
  match x with
  | Fin q => Fin (Qabs q)
  | PInf | NInf => PInf
  | NaN => NaN
  end.

(** Comparisons: every comparison with nan is false. *)
Definition flt (x y : float64) : bool :=
  match x, y with
  | NaN, _ | _, NaN => false
  | Fin a, Fin b => Qltb a b
  | NInf, NInf | PInf, _ | _, NInf => false
  | NInf, _ | _, PInf => true
  end.

Definition fle (x y : float64) : bool :=
  match x, y with
  | NaN, _ | _, NaN => false
  | Fin a, Fin b => Qle_bool a b
  | NInf, _ | _, PInf => true
  | PInf, _ | _, NInf => false
  end.

Definition feqb (x y : float64) : bool :=
  match x, y with
  | Fin a, Fin b => Qeq_bool a b
  | PInf, PInf | NInf, NInf => true
  | _, _ => false
  end.

(** [np.maximum]: nan propagates. *)
Definition fmaximum (x y : float64) : float64 :=
  match x, y with
  | NaN, _ | _, NaN => NaN
  | _, _ => if flt x y then y else x
  end.

(** Equality of floats up to the representation of the rational. *)
Definition feq (x y : float64) : Prop :=
  match x, y with
  | Fin a, Fin b => a == b
  | PInf, PInf | NInf, NInf | NaN, NaN => True
  | _, _ => False
  end.

(** ** Python sequences *)

Definition len {A : Type} (l : list A) : Z := Z.of_nat (length l).

(** Bound of a slice, as [slice.indices] computes it with step 1: a negative
    bound counts from the end, and both are clamped to the sequence. *)
Definition slice_bound (n x : Z) : Z :=
  if x <? 0 then Z.max (x + n) 0 else Z.min x n.

(** [l[start:stop]] *)
Definition py_slice {A : Type} (l : list A) (start stop : Z) : list A :=
  let a := slice_bound (len l) start in
  let b := slice_bound (len l) stop in
  firstn (Z.to_nat (b - a)) (skipn (Z.to_nat a) l).

(** [l[i]] *)
Definition py_index {A : Type} (l : list A) (i : Z) : result A :=
  let n := len l in
  if (i <? - n) || (n <=? i) then Raise IndexError
  else match nth_error l (Z.to_nat (if i <? 0 then i + n else i)) with
       | Some a => Ok a
       | None => Raise IndexError
       end.

(** [range(start, stop)] *)
Fixpoint range_from (start : Z) (count : nat) : list Z :=
  match count with
  | O => []
  | S c => start :: range_from (start + 1) c
  end.

Definition range (start stop : Z) : list Z :=
  range_from start (Z.to_nat (stop - start)).

(** ** Images *)

(** A 2-D array of finite samples, as a list of rows.  A sample is an exact
    number: this covers float rows and the uint8 rows of a grey-scale image,
    where [array - min(array)] and [max(array) - min(array)] cannot wrap.
    numpy computes both in the dtype of the row, so a signed fixed-width row
    whose range does not fit its dtype is outside the model. *)
Definition image : Type := list (list Q).

Definition shape0 (img : image) : Z := len img.

Definition shape1 (img : image) : Z :=
  match img with
  | [] => 0
  | r :: _ => len r
  end.

(** Every row has the width of the array. *)
Definition rect (img : image) : Prop :=
  Forall (fun r => len r = shape1 img) img.

(** [img[r0:r1, c0:c1]] *)
Definition slice2d (img : image) (r0 r1 c0 c1 : Z) : image :=
  map (fun r => py_slice r c0 c1) (py_slice img r0 r1).

(** [img[:, c0:c1]] *)
Definition slice_cols (img : image) (c0 c1 : Z) : image :=
  map (fun r => py_slice r c0 c1) img.

(** ** [crop_image] *)

Definition crop_image (img : image)
    (top_margin bottom_margin left_margin right_margin : Z) : image :=
  let width := shape0 img in
  let height := shape1 img in
  slice2d img top_margin (height - bottom_margin)
              left_margin (width - right_margin).

(** ** Library functions taken as parameters *)

(** A line segment [(x1, y1, x2, y2)] as [cv2.HoughLinesP] reports it. *)
Definition segment : Type := (Z * Z * Z * Z)%type.

(** The calls into easyocr, OpenCV, scipy and numpy that the model does not
    compute:
    - [readtext]: [easyocr.Reader(['en']).readtext(image, detail=0)];
    - [hough_lines]: [cv2.Canny] followed by [cv2.HoughLinesP] with the
      settings of [get_scale_bar_size]; [None] when no line is found;
    - [butter]: [scipy.signal.butter(order, cutoff, output='ba')];
    - [filtfilt]: [scipy.signal.filtfilt(B, A, data)];
    - [sqrt_fin]: [np.sqrt] on a finite, non-negative value;
    - [arctan2], [rad2deg]: [np.arctan2] and [np.rad2deg]. *)
Record Lib : Type := {
  readtext : image -> list string;
  hough_lines : image -> option (list segment);
  butter : Z -> Q -> list Q * list Q;
  filtfilt : list Q -> list Q -> list float64 -> result (list float64);
  sqrt_fin : Q -> Q;
  arctan2 : float64 -> float64 -> float64;
  rad2deg : float64 -> float64
}.

(** ** Python's [int(str)] on ASCII text *)

Definition is_space (c : ascii) : bool :=
  let n := Z.of_nat (nat_of_ascii c) in
  ((9 <=? n) && (n <=? 13)) || (n =? 32).

Definition digit_value (c : ascii) : option Z :=
  let n := Z.of_nat (nat_of_ascii c) in
  if (48 <=? n) && (n <=? 57) then Some (n - 48) else None.

Fixpoint lstrip (l : list ascii) : list ascii :=
  match l with
  | c :: t => if is_space c then lstrip t else l
  | [] => []
  end.

Definition strip (l : list ascii) : list ascii :=
  rev (lstrip (rev (lstrip l))).

(** Decimal digits, single underscores allowed between two digits. *)
Fixpoint digits_value (acc : Z) (after_digit : bool) (l : list ascii)
    : option Z :=
  match l with
  | [] => if after_digit then Some acc else None
  | c :: t =>
      match digit_value c with
      | Some d => digits_value (acc * 10 + d) true t
      | None =>
          if Ascii.eqb c "_"%char && after_digit
          then digits_value acc false t
          else None
      end
  end.

Definition int_of_chars (l : list ascii) : option Z :=
  match strip l with
  | c :: t =>
      if Ascii.eqb c "-"%char then option_map Z.opp (digits_value 0 false t)
      else if Ascii.eqb c "+"%char then digits_value 0 false t
      else digits_value 0 false (c :: t)
  | [] => None
  end.

Definition py_int (s : string) : result Z :=
  match int_of_chars (list_ascii_of_string s) with
  | Some z => Ok z
  | None => Raise ValueError
  end.

(** Python's [a / b] on two [int]s. *)
Definition py_truediv (a b : Z) : result Q :=
  if b =? 0 then Raise ZeroDivisionError
  else Ok (inject_Z a / inject_Z b)%Q.

(** ** [get_str_from_img], [get_scale_bar_size], [get_scale] *)

Definition get_str_from_img (L : Lib) (img : image) : list string :=
  readtext L img.

(** The region [get_scale_bar_size] hands to the line detector. *)
Definition bar_region (infobar : image) : image :=
  slice2d infobar 0 125 200 1250.

Definition get_scale_bar_size (L : Lib) (img : image) : result Z :=
  let scale_img := bar_region img in
  match hough_lines L scale_img with
  | None => Raise TypeError
  | Some lines =>
      line <- py_index lines 0 ;;
      let '(x1, _, x2, _) := line in
      Ok ((x2 - x1) - 6)
  end.

(** The three shapes of [get_scale]'s return value. *)
Inductive scale_output : Type :=
| ScaleAll (scale_str : string) (scale_int : Z) (scale : Q)
| ScalePm (scale pm : Q)
| ScaleOnly (scale : Q).

(** The two regions [get_scale] cuts out of the image: the info bar, and
    the part of it that holds the label. *)
Definition infobar_of (img : image) : image :=
  slice2d img (shape0 img - 95) (shape0 img) 0 (shape1 img).

Definition label_region (infobar : image) : image :=
  slice2d infobar 0 (shape0 infobar) 0 95.

Definition get_scale (L : Lib) (img : image) (return_all return_pm : bool)
    : result scale_output :=
  let infobar := infobar_of img in
  let scale_img := label_region infobar in
  scale_str <- py_index (get_str_from_img L scale_img) 0 ;;
  scale_int <- py_int scale_str ;;
  size <- get_scale_bar_size L infobar ;;
  scale <- py_truediv scale_int size ;;
  size' <- get_scale_bar_size L infobar ;;
  q <- py_truediv scale_int (size' - 1) ;;
  let pm := (q - scale)%Q in
  if return_all then Ok (ScaleAll scale_str scale_int scale)
  else if return_pm then Ok (ScalePm scale pm)
  else Ok (ScaleOnly scale).

(** ** Normalisation and intensity profiles *)

(** Python's [min] and [max] over a sequence. *)
Definition py_min (l : list Q) : result Q :=
  match l with
  | [] => Raise ValueError
  | x :: t => Ok (fold_left (fun m y => if Qltb y m then y else m) t x)
  end.

Definition py_max (l : list Q) : result Q :=
  match l with
  | [] => Raise ValueError
  | x :: t => Ok (fold_left (fun m y => if Qltb m y then y else m) t x)
  end.

Definition normalize_1D_array (array : list Q) : result (list float64) :=
  lo <- py_min array ;;
  hi <- py_max array ;;
  lo' <- py_min array ;;
  Ok (map (fun x => fdiv (Fin (x - lo)) (Fin (hi - lo'))) array).

Definition get_intensity_profile (img : image) (row : Z)
    (invert_profile : bool) : result (list float64) :=
  r <- py_index img row ;;
  n <- normalize_1D_array r ;;
  if invert_profile then Ok (map (fun x => fsub (Fin 1) x) n) else Ok n.

(** [np.diff] of a 1-D array: [a[1:] - a[:-1]]. *)
Fixpoint np_diff (a : list float64) : list float64 :=
  match a with
  | x :: ((y :: _) as t) => fsub y x :: np_diff t
  | _ => []
  end.

Definition get_intensity_profile_dy (intensity_profile : list float64)
    (scale_factor : Z) : list float64 :=
  np_diff (map (fun x => fmul x (of_Z scale_factor)) intensity_profile).

(** An elementwise binary operation on two 1-D arrays, with numpy's
    broadcasting of a one-element array. *)
Definition np_broadcast2 (f : float64 -> float64 -> float64)
    (a b : list float64) : result (list float64) :=
  if (length a =? length b)%nat then Ok (map (fun p => f (fst p) (snd p)) (combine a b))
  else match a, b with
       | [x], _ => Ok (map (fun y => f x y) b)
       | _, [y] => Ok (map (fun x => f x y) a)
       | _, _ => Raise ValueError
       end.

(** What [np.mean] returns on the object array of row profiles: a scalar
    nan for an empty array, the elementwise mean otherwise. *)
Inductive ndvalue : Type :=
| Scalar (x : float64)
| Array1 (a : list float64).

Fixpoint sum_arrays (acc : list float64) (rows : list (list float64))
    : result (list float64) :=
  match rows with
  | [] => Ok acc
  | r :: t => s <- np_broadcast2 fadd acc r ;; sum_arrays s t
  end.

Definition mean_of_arrays (rows : list (list float64)) : result ndvalue :=
  match rows with
  | [] => Ok (Scalar NaN)
  | r :: t =>
      s <- sum_arrays r t ;;
      Ok (Array1 (map (fun x => fdiv x (of_Z (len rows))) s))
  end.

Definition get_mean_intensity_profile (img : image)
    (starting_row ending_row : Z) : result ndvalue :=
  if ending_row - starting_row <? 0 then Raise ValueError
  else
    row_profile_list <-
      mapM (fun row => get_intensity_profile img row true)
           (range starting_row ending_row) ;;
    mean_of_arrays row_profile_list.

(** A function that needs a 1-D array ([np.diff]) rejects a scalar. *)
Definition as_array (v : ndvalue) : result (list float64) :=
  match v with
  | Array1 a => Ok a
  | Scalar _ => Raise ValueError
  end.

(** ** Smoothing *)

Definition filter_data (L : Lib) (data : list float64) (filter_order : Z)
    (cutoff_freq : Q) : result (list float64) :=
  let '(B, A) := butter L filter_order cutoff_freq in
  filtfilt L B A data.

(** ** Peak finding: [scipy.signal.find_peaks(x, height=h)]

    scipy first collects every local maximum (the loop of
    [_local_maxima_1d]), then keeps the peaks whose height is at least [h]. *)

(** Look-ahead over a plateau: how many samples after the current one equal
    it, the last sample of the signal never being consumed. *)
Fixpoint plateau_len (v : float64) (ahead : list float64) : nat :=
  match ahead with
  | a :: ((_ :: _) as t) => if feqb a v then S (plateau_len v t) else O
  | _ => O
  end.

(** The main loop.  [rest] is the signal from index [i] on, [prev] is
    [x[i-1]]; [skip] counts the samples the loop jumps over after a peak
    ([i = i_ahead]).  The last sample is never a peak. *)
Fixpoint local_maxima_from (prev : float64) (i : Z) (rest : list float64)
    (skip : nat) : list Z :=
  match rest with
  | [] => []
  | xi :: rest' =>
      match rest' with
      | [] => []
      | _ :: _ =>
          match skip with
          | S s => local_maxima_from xi (i + 1) rest' s
          | O =>
              if flt prev xi then
                let k := plateau_len xi rest' in
                if flt (nth k rest' NaN) xi
                then ((i + (i + Z.of_nat k)) / 2)
                       :: local_maxima_from xi (i + 1) rest' (S k)
                else local_maxima_from xi (i + 1) rest' O
              else local_maxima_from xi (i + 1) rest' O
          end
      end
  end.

Definition local_maxima_1d (x : list float64) : list Z :=
  match x with
  | [] => []
  | x0 :: rest => local_maxima_from x0 1 rest O
  end.

Definition find_peaks (x : list float64) (height : Q) : list Z :=
  filter (fun p => fle (Fin height) (nth (Z.to_nat p) x NaN))
         (local_maxima_1d x).

Definition get_leading_edge_positions
    (intensity_profile_derivative : list float64) (treshold : Q) : list Z :=
  find_peaks intensity_profile_derivative treshold.

Definition get_trailing_edge_positions
    (intensity_profile_derivative : list float64) (treshold : Q) : list Z :=
  find_peaks (map fopp intensity_profile_derivative) treshold.

(** ** numpy statistics *)

(** Python's [sum]: [0 + x0 + x1 + ...]. *)
Definition py_sum (l : list float64) : float64 :=
  fold_left fadd l (Fin 0).

Definition np_mean (l : list float64) : float64 :=
  fdiv (py_sum l) (of_Z (len l)).

Definition np_sqrt (L : Lib) (x : float64) : float64 :=
  match x with
  | Fin q => if Qltb q 0 then NaN else Fin (sqrt_fin L q)
  | PInf => PInf
  | NInf | NaN => NaN
  end.

Definition np_std (L : Lib) (l : list float64) : float64 :=
  let m := np_mean l in
  np_sqrt L (np_mean (map (fun x => let d := fsub x m in fmul d d) l)).

(** ** [get_translation] *)

(** The value the comprehension computes at index [i]. *)
Definition translation_at (le te : list Z) (scale : Q) (i : Z)
    : result float64 :=
  a <- py_index le ((i + 1) * 2) ;;
  b <- py_index te (i * 2 + 1) ;;
  c <- py_index le (i * 2 + 1) ;;
  d <- py_index te (i * 2) ;;
  Ok (fdiv (fmul (of_Z ((a - b) - (c - d))) (Fin scale)) (of_Z 2)).

(** The part of [get_translation] after the edges are found. *)
Definition translation_of_edges (L : Lib) (le te : list Z) (scale : Q)
    : result (list float64 * float64) :=
  let n := Z.quot (len le) 2 - 1 in
  T <- mapM (translation_at le te scale) (range 0 n) ;;
  let std := np_std L T in
  Ok (T, std).

Definition get_translation (L : Lib) (intensity_profile : list float64)
    (scale : Q) : result (list float64 * float64) :=
  dy <- filter_data L (get_intensity_profile_dy intensity_profile 5)
                    3 (1 # 10) ;;
  let le := get_leading_edge_positions dy (1 # 10) in
  let te := get_trailing_edge_positions dy (1 # 10) in
  translation_of_edges L le te scale.

(** ** [get_rotation] *)

Definition rotation_angle_at (L : Lib) (top bottom : list float64)
    (y : Z) (scale : Q) (i : Z) : result float64 :=
  t <- py_index top i ;;
  b <- py_index bottom i ;;
  Ok (rad2deg L (arctan2 L (fsub t b) (Fin (inject_Z y * scale)))).

Definition get_rotation (L : Lib) (img : image) (scale : Q)
    : result (float64 * float64) :=
  let y := shape0 img in
  top_profile <- get_mean_intensity_profile img 10 11 ;;
  top_array <- as_array top_profile ;;
  translations_top <- get_translation L top_array scale ;;
  bottom_profile <- get_mean_intensity_profile img (y - 1) y ;;
  bottom_array <- as_array bottom_profile ;;
  translations_bottom <- get_translation L bottom_array scale ;;
  angle <-
    mapM (rotation_angle_at L (fst translations_top)
                            (fst translations_bottom) y scale)
         (range 0 (Z.min (len (fst translations_bottom))
                         (len (fst translations_top)))) ;;
  let angle := map (fun a => fdiv (fabs a) (of_Z 2)) angle in
  let R := np_mean angle in
  let std := np_std L angle in
  Ok (R, std).

(** The profile of a band that holds the single row [row]: the mean over
    one row divides every sample by 1. *)
Definition single_row_band (img : image) (row : Z) : result (list float64) :=
  p <- get_intensity_profile img row true ;;
  Ok (map (fun x => fdiv x (of_Z 1)) p).

(** The halved absolute angles of [get_rotation], index by index. *)
Definition rotation_angles (L : Lib) (top bottom : list float64) (y : Z)
    (scale : Q) : list float64 :=
  map (fun tb =>
         fdiv (fabs (rad2deg L (arctan2 L (fsub (fst tb) (snd tb))
                                          (Fin (inject_Z y * scale)))))
              (of_Z 2))
      (combine top bottom).

(** The rotation estimate as the specification words it: the top band is
    rows 10 and 11, the bottom band the last two rows of the image. *)
Definition get_rotation_two_row_bands (L : Lib) (img : image) (scale : Q)
    : result (float64 * float64) :=
  let y := shape0 img in
  top_profile <- get_mean_intensity_profile img 10 12 ;;
  top_array <- as_array top_profile ;;
  translations_top <- get_translation L top_array scale ;;
  bottom_profile <- get_mean_intensity_profile img (y - 2) y ;;
  bottom_array <- as_array bottom_profile ;;
  translations_bottom <- get_translation L bottom_array scale ;;
  let angle :=
    rotation_angles L (fst translations_top) (fst translations_bottom)
                    y scale in
  Ok (np_mean angle, np_std L angle).

(** ** [get_line_width_data] *)

(** One entry of [LW_differences]: the deviation of row [row] of the line's
    window from the mean profile. *)
Definition lw_difference (L : Lib) (img_slice : image)
    (data_slice : list float64) (scale : Q) (row : Z) : result float64 :=
  profile <- get_intensity_profile img_slice row true ;;
  filtered <- filter_data L profile 1 (1 # 10) ;;
  d <- np_broadcast2 fsub data_slice (map (fun x => fmul x x) filtered) ;;
  let clipped := map (fun x => fmaximum x (Fin 0)) d in
  Ok (fmul (np_sqrt L (py_sum clipped)) (Fin scale)).

(** The body of the loop over the lines: the width of the line between
    [peak] and [valley], and the spread of its rows. *)
Definition line_width_and_std (L : Lib) (img : image)
    (mean_intensity_profile : list float64) (scale : Q)
    (edges : Z * Z) : result (float64 * float64) :=
  let '(peak, valley) := edges in
  let margin := 10 in
  let line_width := fmul (of_Z (valley - peak)) (Fin scale) in
  let img_slice := slice_cols img (peak - margin) (valley + margin) in
  let data_slice :=
    py_slice mean_intensity_profile (peak - margin) (valley + margin) in
  let y := shape0 img_slice in
  LW_differences <-
    mapM (lw_difference L img_slice data_slice scale) (range 0 y) ;;
  let std := np_std L LW_differences in
  Ok (line_width, std).

Definition get_line_width_data (L : Lib) (img : image)
    (mean_intensity_profile : list float64)
    (leading_edges trailing_edges : list Z) (scale : Q)
    : result (list float64 * list float64) :=
  lines <-
    mapM (line_width_and_std L img mean_intensity_profile scale)
         (combine leading_edges trailing_edges) ;;
  Ok (map fst lines, map snd lines).

(** ** [get_single_line_width] *)

Definition get_single_line_width (L : Lib) (img : image)
    (mean_intensity_profile : list float64)
    (leading_edges trailing_edges : list Z) (scale : Q) (lineIdx : Z)
    : result (float64 * float64) :=
  data <- get_line_width_data L img mean_intensity_profile
                              leading_edges trailing_edges scale ;;
  let '(lw, std) := data in
  w <- py_index lw lineIdx ;;
  s <- py_index std lineIdx ;;
  Ok (w, s).

(** ** Closed forms used in the statements *)

(** The width the loop body appends for one pair of edges. *)
Definition width_of (scale : Q) (edges : Z * Z) : float64 :=
  fmul (of_Z (snd edges - fst edges)) (Fin scale).

(** [le[k]] and [te[k]] for an index known to be in bounds. *)
Definition edge_at (edges : list Z) (k : Z) : Z :=
  nth (Z.to_nat k) edges 0.

(** The i-th translation value, as the formula gives it. *)
Definition translation_value (le te : list Z) (scale : Q) (i : Z) : float64 :=
  Fin (inject_Z ((edge_at le ((i + 1) * 2) - edge_at te (i * 2 + 1))
                 - (edge_at le (i * 2 + 1) - edge_at te (i * 2)))
       * scale / 2).

(** The image with every sample [x] replaced by [gain * x + offset]. *)
Definition rescale_image (gain offset : Q) (img : image) : image :=
  map (map (fun x => gain * x + offset)%Q) img.

(** Two calls end the same way: the same exception, or arrays that are
    equal index by index up to the representation of the rationals. *)
Definition same_profile (r1 r2 : result (list float64)) : Prop :=
  match r1, r2 with
  | Ok a, Ok b => Forall2 feq a b
  | Raise e1, Raise e2 => e1 = e2
  | _, _ => False
  end.

(** The scale a result of [get_scale] carries, whatever its shape. *)
Definition scale_of (o : scale_output) : Q :=
  match o with
  | ScaleAll _ _ s => s
  | ScalePm s _ => s
  | ScaleOnly s => s
  end.

(** [x[j]] for a signal [x]; nan stands for an index out of bounds. *)
Definition sample_at (x : list float64) (j : Z) : float64 :=
  nth (Z.to_nat j) x NaN.

(** What a reported peak looks like in the signal [x]: the middle, rounded
    down, of a run [l..r] of equal samples with a strictly lower sample on
    each side. *)
Definition is_plateau_peak (x : list float64) (p : Z) : Prop :=
  exists l r,
    1 <= l /\ l <= p <= r /\ r + 1 < len x /\ p = (l + r) / 2
    /\ flt (sample_at x (l - 1)) (sample_at x l) = true
    /\ flt (sample_at x (r + 1)) (sample_at x l) = true
    /\ forall j, l <= j <= r -> feqb (sample_at x j) (sample_at x l) = true.

(** The next [skip] samples of [rest] do not rise above their predecessor
    ([prev] for the first one). *)
Fixpoint no_rise (prev : float64) (rest : list float64) (skip : nat) : Prop :=
  match skip, rest with
  | S s, x :: t => flt prev x = false /\ no_rise x t s
  | _, _ => True
  end.

(** ** A library instance for running the model

    The instance fixes what the collaborators answer: the OCR reads
    [label], the line detector reports [lines]; the filter returns its input
    (after scipy's check that the signal is longer than the padding,
    [3 * max(len(A), len(B))]); the square root is the integer square root
    of the floor; the angle functions return their first argument.  The
    filter is not the Butterworth filter: a value computed with this
    instance is the program's only where it does not depend on the
    smoothing. *)
Definition stub_lib (label : list string) (lines : option (list segment))
    : Lib := {|
  readtext := fun _ => label;
  hough_lines := fun _ => lines;
  butter := fun order _ =>
    (repeat 1%Q (Z.to_nat (order + 1)), repeat 1%Q (Z.to_nat (order + 1)));
  filtfilt := fun B A data =>
    if len data <=? 3 * Z.max (len A) (len B) then Raise ValueError
    else Ok data;
  sqrt_fin := fun q => inject_Z (Z.sqrt (Qnum q / Zpos (Qden q)));
  arctan2 := fun y _ => y;
  rad2deg := fun a => a
|}.

Definition plain_lib : Lib := stub_lib [] None.

(** ** Sample inputs *)

Definition sample_image : image :=
  [[1; 2; 3]; [4; 5; 6]]%Q.

Definition sample_dy : list float64 :=
  map of_Z [0; 1; 0; 3; 0; -2; 0; -5; 0].

(** The OCR reads "100"; the detected bar spans 206 pixels, or only the 6
    pixels of its two end ticks. *)
Definition bar_206_lib : Lib :=
  stub_lib ["100"%string] (Some [(0, 0, 206, 0)]).

Definition bar_6_lib : Lib :=
  stub_lib ["100"%string] (Some [(0, 0, 6, 0)]).

(** An image whose only row is constant. *)
Definition flat_image : image :=
  [[7; 7; 7]]%Q.

(** A dark line, 6 pixels wide, on a bright background: two rows of 40
    samples, the line on columns 13 to 18. *)
Definition line_row : list Q :=
  (repeat 1 13 ++ repeat 0 6 ++ repeat 1 21)%Q.

Definition line_image : image :=
  [line_row; line_row].

(** Its inverted, normalised profile. *)
Definition line_profile : list float64 :=
  map Fin (repeat 0 13 ++ repeat 1 6 ++ repeat 0 21)%Q.

(** A flat intensity profile of 20 samples: its derivative is zero
    everywhere. *)
Definition flat_profile : list float64 :=
  repeat (Fin 0) 20.

(** A profile with eight lines, two samples wide, whose gaps alternate
    between two and three samples. *)
Definition eight_line_profile : list float64 :=
  map of_Z [0; 0; 1; 1; 0; 0; 1; 1; 0; 0; 0; 1; 1; 0; 0; 1; 1; 0; 0; 0;
            1; 1; 0; 0; 1; 1; 0; 0; 0; 1; 1; 0; 0; 1; 1; 0; 0; 0].

(** A profile with four lines whose last line never ends: four leading
    edges, three trailing edges. *)
Definition open_line_profile : list float64 :=
  map of_Z [0; 0; 1; 1; 0; 0; 1; 1; 0; 0; 0; 1; 1; 0; 0; 1; 1; 1; 1; 1].

(** A profile with four rising steps and a single fall. *)
Definition staircase_profile : list float64 :=
  map of_Z [0; 0; 1; 1; 1; 2; 2; 2; 3; 3; 3; 4; 4; 4; 0; 0; 0; 0; 0; 0].

(** Thirteen rows: eight dark lines on rows 0 to 10 and on the last row,
    a constant row in between. *)
Definition eight_line_row : list Q :=
  [1; 1; 0; 0; 1; 1; 0; 0; 1; 1; 1; 0; 0; 1; 1; 0; 0; 1; 1; 1;
   0; 0; 1; 1; 0; 0; 1; 1; 1; 0; 0; 1; 1; 0; 0; 1; 1; 1]%Q.

Definition banded_image : image :=
  repeat eight_line_row 11 ++ [repeat 1%Q 38; eight_line_row].


(** The OCR reads "100"; the detected bar spans 7 pixels, one pixel more
    than its two end ticks. *)
Definition bar_7_lib : Lib :=
  stub_lib ["100"%string] (Some [(0, 0, 7, 0)]).


(** A periodic profile: eight lines two samples wide, one every five
    samples. *)
Definition periodic_profile : list float64 :=
  map of_Z (concat (repeat [0; 0; 1; 1; 0] 8) ++ [0; 0]).




(** Thirteen rows of 132 samples: six dark lines, eight samples wide, with
    gaps of eight and twelve samples, on rows 0 to 10 and on the last row;
    a constant row in between.  Lines of this width survive the
    Butterworth smoothing of the program. *)
Definition wide_line_row : list Q :=
  (repeat 1 12
   ++ concat (map (fun gap => repeat 0 8 ++ repeat 1 gap)
                  [8; 12; 8; 12; 8; 12]%nat)
   ++ repeat 1 12)%Q.

Definition wide_banded_image : image :=
  repeat wide_line_row 11 ++ [repeat 1%Q 132; wide_line_row].

(** * Properties *)

(** ** Slices *)

Lemma len_nonneg {A : Type} (l : list A) : 0 <= len l.
Proof. unfold len. lia. Qed.

Lemma py_slice_prefix {A : Type} (l : list A) (k : Z) :
  0 <= k -> py_slice l 0 k = firstn (Z.to_nat k) l.
Proof.
  intros Hk. unfold py_slice, slice_bound.
  pose proof (len_nonneg l) as Hn.
  replace (0 <? 0) with false by reflexivity.
  destruct (k <? 0) eqn:E; [apply Z.ltb_lt in E; lia|].
  rewrite (Z.min_l 0) by assumption. simpl skipn. rewrite Z.sub_0_r.
  destruct (Z.le_gt_cases k (len l)) as [Hle | Hgt].
  - rewrite Z.min_l by assumption. reflexivity.
  - rewrite Z.min_r by lia. unfold len in *.
    rewrite Nat2Z.id. rewrite !firstn_all2; auto; lia.
Qed.

Lemma py_slice_whole {A : Type} (l : list A) (k : Z) :
  len l <= k -> py_slice l 0 k = l.
Proof.
  intros Hk. pose proof (len_nonneg l).
  rewrite py_slice_prefix by lia.
  apply firstn_all2. unfold len in *. lia.
Qed.

Lemma py_slice_prefix_length {A : Type} (l : list A) (k : Z) :
  0 <= k -> len (py_slice l 0 k) = Z.min k (len l).
Proof.
  intros Hk. rewrite py_slice_prefix by assumption.
  unfold len. rewrite length_firstn. lia.
Qed.

Lemma rect_rows_whole (img : image) :
  rect img -> map (fun r => py_slice r 0 (shape1 img)) img = img.
Proof.
  unfold rect. generalize (shape1 img) as c.
  induction img as [|r t IH]; intros c H; simpl; [reflexivity|].
  inversion H; subst.
  rewrite py_slice_whole by lia. f_equal. apply IH. assumption.
Qed.

(** With zero margins the crop that the docstring describes is the image
    itself. *)
Lemma slice2d_whole (img : image) :
  rect img -> slice2d img 0 (shape0 img) 0 (shape1 img) = img.
Proof.
  intros H. unfold slice2d, shape0.
  rewrite py_slice_whole by lia. apply rect_rows_whole, H.
Qed.

Lemma crop_zero_margins_loses_pixels (img : image) :
  rect img -> shape0 img <> shape1 img -> crop_image img 0 0 0 0 <> img.
Proof.
  intros Hrect Hne Heq.
  unfold crop_image, slice2d in Heq. rewrite !Z.sub_0_r in Heq.
  pose proof (len_nonneg img) as Hr.
  assert (Hc : 0 <= shape1 img) by (destruct img; simpl; [lia|apply len_nonneg]).
  assert (Hlen : len (py_slice img 0 (shape1 img)) = len img).
  { apply (f_equal (@len _)) in Heq. unfold len in Heq |- *.
    rewrite length_map in Heq. exact Heq. }
  rewrite py_slice_prefix_length in Hlen by assumption.
  unfold shape0 in *.
  assert (Hlt : len img < shape1 img) by lia.
  rewrite py_slice_whole in Heq by lia.
  destruct img as [|r t]; simpl in *; [unfold len in *; simpl in *; lia|].
  injection Heq as Hrow _.
  apply (f_equal (@len _)) in Hrow.
  rewrite py_slice_prefix_length in Hrow by lia. lia.
Qed.

(** C10: on an image of shape (R rows, C columns) [crop_image] returns
    [image[top : C - bottom, left : R - right]]: the row bound comes from the
    column count and the column bound from the row count.  The result is the
    crop the margins describe, [image[top : R - bottom, left : C - right]],
    for all margins exactly when the image is square; on every other image
    the zero margins already lose pixels. *)
Theorem crop_image_swapped_bounds (img : image) (Hrect : rect img) :
  let R := shape0 img in
  let C := shape1 img in
  (forall top bottom left right,
      crop_image img top bottom left right
      = slice2d img top (C - bottom) left (R - right))
  /\ ((forall top bottom left right,
          crop_image img top bottom left right
          = slice2d img top (R - bottom) left (C - right))
      <-> R = C)
  /\ (R <> C -> crop_image img 0 0 0 0 <> img).
Proof.
  intros R C. split; [reflexivity|]. split.
  - split.
    + intros Hall. destruct (Z.eq_dec R C) as [|Hne]; [assumption|].
      exfalso. apply (crop_zero_margins_loses_pixels img Hrect Hne).
      rewrite Hall. rewrite !Z.sub_0_r. apply slice2d_whole, Hrect.
    + intros Heq top bottom left right. unfold crop_image.
      fold R C. rewrite Heq. reflexivity.
  - apply crop_zero_margins_loses_pixels, Hrect.
Qed.

Lemma crop_image_swapped_bounds_witness :
  rect sample_image /\ crop_image sample_image 0 0 0 0 <> sample_image.
Proof.
  assert (H : rect sample_image) by (repeat constructor).
  split; [exact H|].
  apply (crop_image_swapped_bounds _ H). vm_compute. lia.
Defined.

(** ** Edge detection *)

Lemma fle_threshold_weaken (t1 t2 : Q) (h : float64) :
  (t1 <= t2)%Q -> fle (Fin t2) h = true -> fle (Fin t1) h = true.
Proof.
  intros Ht. destruct h as [q| | |]; simpl; try easy.
  rewrite !Qle_bool_iff. intros H. apply Qle_trans with t2; assumption.
Qed.

Lemma filter_length_mono {A : Type} (f g : A -> bool) (l : list A) :
  (forall a, f a = true -> g a = true) ->
  (length (filter f l) <= length (filter g l))%nat.
Proof.
  intros Himp. induction l as [|a t IH]; simpl; [lia|].
  destruct (f a) eqn:Ef.
  - rewrite (Himp a Ef). simpl. lia.
  - destruct (g a); simpl; lia.
Qed.

Lemma find_peaks_threshold_mono (x : list float64) (t1 t2 : Q) :
  (t1 <= t2)%Q ->
  (length (find_peaks x t2) <= length (find_peaks x t1))%nat.
Proof.
  intros Ht. unfold find_peaks. apply filter_length_mono.
  intros p. apply fle_threshold_weaken, Ht.
Qed.

(** Every peak that survives the higher threshold survives the lower one. *)
Lemma find_peaks_threshold_incl (x : list float64) (t1 t2 : Q) :
  (t1 <= t2)%Q -> incl (find_peaks x t2) (find_peaks x t1).
Proof.
  intros Ht p. unfold find_peaks. rewrite !filter_In.
  intros [Hin Hp]. split; [assumption|].
  apply fle_threshold_weaken with t2; assumption.
Qed.

(** C9: for every derivative profile and thresholds [t1 <= t2], the higher
    threshold returns at most as many leading edges as the lower one, and
    likewise for trailing edges. *)
Theorem edge_count_threshold_monotone (dy : list float64) (t1 t2 : Q) :
  (t1 <= t2)%Q ->
  (length (get_leading_edge_positions dy t2)
   <= length (get_leading_edge_positions dy t1))%nat
  /\ (length (get_trailing_edge_positions dy t2)
      <= length (get_trailing_edge_positions dy t1))%nat.
Proof.
  intros Ht. unfold get_leading_edge_positions, get_trailing_edge_positions.
  split; apply find_peaks_threshold_mono, Ht.
Qed.

Lemma edge_count_threshold_monotone_witness :
  (1 <= 2)%Q
  /\ (length (get_leading_edge_positions sample_dy 2)
      <= length (get_leading_edge_positions sample_dy 1))%nat
  /\ (length (get_trailing_edge_positions sample_dy 2)
      <= length (get_trailing_edge_positions sample_dy 1))%nat.
Proof.
  assert (H : (1 <= 2)%Q) by (vm_compute; discriminate).
  split; [exact H|]. exact (edge_count_threshold_monotone sample_dy 1 2 H).
Defined.

(** ** Scale *)

Lemma py_index_head {A : Type} (a : A) (l : list A) :
  py_index (a :: l) 0 = Ok a.
Proof.
  unfold py_index, len. cbn [length].
  rewrite Nat2Z.inj_succ.
  destruct (0 <? - Z.succ (Z.of_nat (length l))) eqn:E1;
    [apply Z.ltb_lt in E1; lia|].
  destruct (Z.succ (Z.of_nat (length l)) <=? 0) eqn:E2;
    [apply Z.leb_le in E2; lia|].
  reflexivity.
Qed.

Lemma get_scale_bar_size_span (L : Lib) (infobar : image)
    (x1 y1 x2 y2 : Z) (more : list segment) :
  hough_lines L (bar_region infobar) = Some ((x1, y1, x2, y2) :: more) ->
  get_scale_bar_size L infobar = Ok ((x2 - x1) - 6).
Proof.
  intros H. unfold get_scale_bar_size. rewrite H. reflexivity.
Qed.

(** C1, as the code has it: when the OCR text parses to [label_value] and the
    line detector reports an endpoint span of [S] pixels, then with
    [L = S - 6], [get_scale] with [return_pm=True] (and [return_all] left
    [False]) returns [scale = label_value / L] and
    [uncertainty = label_value / (L - 1) - scale] provided [L] is neither 0
    nor 1; for [L = 0] and [L = 1] it raises [ZeroDivisionError]. *)
Theorem get_scale_pm_formula (L : Lib) (img : image) (scale_str : string)
    (texts : list string) (label_value : Z) (x1 y1 x2 y2 : Z)
    (more : list segment) :
  readtext L (label_region (infobar_of img)) = scale_str :: texts ->
  py_int scale_str = Ok label_value ->
  hough_lines L (bar_region (infobar_of img))
    = Some ((x1, y1, x2, y2) :: more) ->
  let S := x2 - x1 in
  let Lpx := S - 6 in
  (Lpx <> 0 -> Lpx <> 1 ->
   get_scale L img false true
   = Ok (ScalePm (inject_Z label_value / inject_Z Lpx)
                 (inject_Z label_value / inject_Z (Lpx - 1)
                  - inject_Z label_value / inject_Z Lpx)))
  /\ (Lpx = 0 \/ Lpx = 1 ->
      get_scale L img false true = Raise ZeroDivisionError).
Proof.
  intros Htext Hint Hlines S Lpx.
  pose proof (get_scale_bar_size_span L _ _ _ _ _ _ Hlines) as Hsize.
  fold S in Hsize. fold Lpx in Hsize.
  unfold get_scale, get_str_from_img. rewrite Htext, py_index_head.
  cbn [bind]. rewrite Hint. cbn [bind]. rewrite Hsize. cbn [bind].
  unfold py_truediv. split.
  - intros H0 H1.
    destruct (Lpx =? 0) eqn:E0; [apply Z.eqb_eq in E0; contradiction|].
    cbn [bind].
    destruct (Lpx - 1 =? 0) eqn:E1; [apply Z.eqb_eq in E1; lia|].
    reflexivity.
  - intros [H0 | H1].
    + rewrite H0. reflexivity.
    + rewrite H1. reflexivity.
Qed.

Lemma get_scale_pm_formula_witness :
  py_int "100" = Ok 100
  /\ get_scale bar_206_lib sample_image false true
     = Ok (ScalePm (inject_Z 100 / inject_Z 200)
                   (inject_Z 100 / inject_Z 199 - inject_Z 100 / inject_Z 200)).
Proof.
  split; [reflexivity|].
  apply (proj1 (get_scale_pm_formula bar_206_lib sample_image "100" []
                  100 0 0 206 0 [] eq_refl eq_refl eq_refl)); lia.
Defined.

(** C1 as stated fails when the detected span is 6 pixels: the bar length is
    0 after the tick correction and the division raises. *)
Lemma get_scale_tick_only_bar_raises :
  py_int "100" = Ok 100
  /\ get_scale_bar_size bar_6_lib (infobar_of sample_image) = Ok 0
  /\ get_scale bar_6_lib sample_image false true = Raise ZeroDivisionError.
Proof. repeat split. Qed.

(** ** Normalisation *)

Lemma Qltb_true (a b : Q) : Qltb a b = true <-> (a < b)%Q.
Proof.
  unfold Qltb. rewrite negb_true_iff. split.
  - intros H. apply Qnot_le_lt. intros Hle.
    apply Qle_bool_iff in Hle. congruence.
  - intros H. destruct (Qle_bool b a) eqn:E; [|reflexivity].
    apply Qle_bool_iff in E. exfalso. exact (Qlt_not_le _ _ H E).
Qed.

Lemma Qltb_false (a b : Q) : Qltb a b = false <-> (b <= a)%Q.
Proof.
  unfold Qltb. rewrite negb_false_iff. apply Qle_bool_iff.
Qed.

(** The running minimum is an element of the sequence and a lower bound. *)
Lemma fold_min_spec (t : list Q) (x : Q) :
  let m := fold_left (fun m y => if Qltb y m then y else m) t x in
  In m (x :: t) /\ (forall y, In y (x :: t) -> (m <= y)%Q).
Proof.
  revert x. induction t as [|a t IH]; intros x; cbn [fold_left].
  - split; [left; reflexivity|].
    intros y [<-|[]]. apply Qle_refl.
  - destruct (IH (if Qltb a x then a else x)) as [Hin Hlow].
    split.
    + destruct Hin as [Hin | Hin]; [|right; right; exact Hin].
      rewrite <- Hin. destruct (Qltb a x); [right; left|left]; reflexivity.
    + assert (Hx' : forall y, y = x \/ y = a ->
                (fold_left (fun m y => if Qltb y m then y else m) t
                           (if Qltb a x then a else x) <= y)%Q).
      { intros y Hy.
        apply Qle_trans with (if Qltb a x then a else x);
          [apply Hlow; left; reflexivity|].
        destruct (Qltb a x) eqn:E.
        - apply Qltb_true in E. destruct Hy as [-> | ->];
            [apply Qlt_le_weak, E | apply Qle_refl].
        - apply Qltb_false in E. destruct Hy as [-> | ->];
            [apply Qle_refl | exact E]. }
      intros y [<- | [<- | Hy]]; [apply Hx'; auto | apply Hx'; auto |].
      apply Hlow. right. exact Hy.
Qed.

Lemma fold_max_spec (t : list Q) (x : Q) :
  let m := fold_left (fun m y => if Qltb m y then y else m) t x in
  In m (x :: t) /\ (forall y, In y (x :: t) -> (y <= m)%Q).
Proof.
  revert x. induction t as [|a t IH]; intros x; cbn [fold_left].
  - split; [left; reflexivity|].
    intros y [<-|[]]. apply Qle_refl.
  - destruct (IH (if Qltb x a then a else x)) as [Hin Hup].
    split.
    + destruct Hin as [Hin | Hin]; [|right; right; exact Hin].
      rewrite <- Hin. destruct (Qltb x a); [right; left|left]; reflexivity.
    + assert (Hx' : forall y, y = x \/ y = a ->
                (y <= fold_left (fun m y => if Qltb m y then y else m) t
                           (if Qltb x a then a else x))%Q).
      { intros y Hy.
        apply Qle_trans with (if Qltb x a then a else x);
          [|apply Hup; left; reflexivity].
        destruct (Qltb x a) eqn:E.
        - apply Qltb_true in E. destruct Hy as [-> | ->];
            [apply Qlt_le_weak, E | apply Qle_refl].
        - apply Qltb_false in E. destruct Hy as [-> | ->];
            [apply Qle_refl | exact E]. }
      intros y [<- | [<- | Hy]]; [apply Hx'; auto | apply Hx'; auto |].
      apply Hup. right. exact Hy.
Qed.

Lemma py_min_spec (r : list Q) :
  r <> [] ->
  exists lo, py_min r = Ok lo /\ In lo r /\ forall y, In y r -> (lo <= y)%Q.
Proof.
  destruct r as [|x t]; [congruence|]. intros _.
  eexists. split; [reflexivity|]. apply fold_min_spec.
Qed.

Lemma py_max_spec (r : list Q) :
  r <> [] ->
  exists hi, py_max r = Ok hi /\ In hi r /\ forall y, In y r -> (y <= hi)%Q.
Proof.
  destruct r as [|x t]; [congruence|]. intros _.
  eexists. split; [reflexivity|]. apply fold_max_spec.
Qed.

(** A constant row normalises to nan at every index. *)
Lemma normalize_constant (r : list Q) (v : Q) :
  r <> [] -> Forall (fun x => x == v) r ->
  normalize_1D_array r = Ok (repeat NaN (length r)).
Proof.
  intros Hne Hconst. rewrite Forall_forall in Hconst.
  destruct (py_min_spec r Hne) as (lo & Hlo & Hlo_in & _).
  destruct (py_max_spec r Hne) as (hi & Hhi & Hhi_in & _).
  unfold normalize_1D_array. rewrite Hlo, Hhi. cbn [bind].
  f_equal.
  assert (Hden : Qeq_bool (hi - lo) 0 = true).
  { apply Qeq_bool_iff. rewrite (Hconst _ Hlo_in), (Hconst _ Hhi_in). ring. }
  assert (Hall : forall x, In x r ->
            fdiv (Fin (x - lo)) (Fin (hi - lo)) = NaN).
  { intros x Hx. unfold fdiv. rewrite Hden.
    assert (Hnum : Qeq_bool (x - lo) 0 = true).
    { apply Qeq_bool_iff. rewrite (Hconst _ Hlo_in), (Hconst _ Hx). ring. }
    rewrite Hnum. reflexivity. }
  clear Hlo Hhi Hne Hconst Hden Hlo_in Hhi_in.
  induction r as [|x t IH]; [reflexivity|].
  cbn [map length repeat]. rewrite Hall by (left; reflexivity).
  f_equal. apply IH. intros y Hy. apply Hall. right. exact Hy.
Qed.

(** A row with two different samples normalises to finite values. *)
Lemma normalize_nonconstant (r : list Q) (x y : Q) :
  In x r -> In y r -> ~ x == y ->
  exists lo hi,
    ~ hi - lo == 0
    /\ normalize_1D_array r
       = Ok (map (fun z => Fin ((z - lo) / (hi - lo))) r).
Proof.
  intros Hx Hy Hxy.
  assert (Hne : r <> []) by (destruct r; [contradiction | congruence]).
  destruct (py_min_spec r Hne) as (lo & Hlo & _ & Hlow).
  destruct (py_max_spec r Hne) as (hi & Hhi & _ & Hup).
  exists lo, hi.
  assert (Hden : ~ hi - lo == 0).
  { intros H0. apply Hxy.
    pose proof (Hlow x Hx). pose proof (Hup x Hx).
    pose proof (Hlow y Hy). pose proof (Hup y Hy).
    apply Qle_antisym; lra. }
  split; [exact Hden|].
  unfold normalize_1D_array. rewrite Hlo, Hhi. cbn [bind]. f_equal.
  apply map_ext. intros z. unfold fdiv.
  destruct (Qeq_bool (hi - lo) 0) eqn:E; [|reflexivity].
  apply Qeq_bool_iff in E. contradiction.
Qed.

(** ** Row profiles *)

Lemma map_repeat {A B : Type} (f : A -> B) (a : A) (n : nat) :
  map f (repeat a n) = repeat (f a) n.
Proof. induction n; simpl; congruence. Qed.

(** C5, as the code has it: for a non-empty row whose samples are all equal,
    [get_intensity_profile] raises nothing; it returns an array of the row's
    length that is nan at every index, with and without inversion. *)
Theorem constant_row_profile_is_nan (img : image) (row : Z) (r : list Q)
    (v : Q) (invert_profile : bool) :
  py_index img row = Ok r ->
  r <> [] ->
  Forall (fun x => x == v) r ->
  get_intensity_profile img row invert_profile
  = Ok (repeat NaN (length r)).
Proof.
  intros Hrow Hne Hconst. unfold get_intensity_profile.
  rewrite Hrow. cbn [bind].
  rewrite (normalize_constant r v Hne Hconst). cbn [bind].
  destruct invert_profile; [|reflexivity].
  rewrite map_repeat. reflexivity.
Qed.

Lemma constant_row_profile_is_nan_witness :
  py_index flat_image 0 = Ok [7; 7; 7]%Q
  /\ get_intensity_profile flat_image 0 false = Ok [NaN; NaN; NaN].
Proof.
  split; [reflexivity|].
  apply (constant_row_profile_is_nan flat_image 0 [7; 7; 7]%Q 7 false).
  - reflexivity.
  - discriminate.
  - repeat constructor.
Defined.

(** C5 as stated fails on the constant row [7, 7, 7]: the call returns, and
    what it returns is nan at every index. *)
Lemma constant_row_returns_nan :
  get_intensity_profile flat_image 0 true = Ok [NaN; NaN; NaN]
  /\ is_ok (get_intensity_profile flat_image 0 true) = true.
Proof. split; reflexivity. Qed.

(** C8: on a row that holds two different samples, the inverted and the
    plain profile both exist, have the row's length, and add up to 1 at
    every index. *)
Theorem inverted_profile_is_complement (img : image) (row : Z) (r : list Q)
    (x y : Q) :
  py_index img row = Ok r ->
  In x r -> In y r -> ~ x == y ->
  exists a b,
    get_intensity_profile img row true = Ok a
    /\ get_intensity_profile img row false = Ok b
    /\ length a = length r
    /\ Forall2 (fun u v => feq (fadd u v) (Fin 1)) a b.
Proof.
  intros Hrow Hx Hy Hxy.
  destruct (normalize_nonconstant r x y Hx Hy Hxy) as (lo & hi & Hden & Hn).
  unfold get_intensity_profile. rewrite Hrow. cbn [bind].
  rewrite Hn. cbn [bind].
  eexists. eexists. split; [reflexivity|]. split; [reflexivity|].
  split; [rewrite !length_map; reflexivity|].
  clear. induction r as [|z t IH]; [constructor|].
  cbn [map]. constructor; [|exact IH].
  cbn [fsub fadd feq]. ring.
Qed.

Lemma inverted_profile_is_complement_witness :
  exists a b,
    get_intensity_profile sample_image 0 true = Ok a
    /\ get_intensity_profile sample_image 0 false = Ok b
    /\ length a = 3%nat
    /\ Forall2 (fun u v => feq (fadd u v) (Fin 1)) a b.
Proof.
  apply (inverted_profile_is_complement sample_image 0 [1; 2; 3]%Q 1 2).
  - reflexivity.
  - simpl. auto.
  - simpl. auto.
  - intros H. vm_compute in H. discriminate.
Defined.

(** ** Line widths *)

Lemma mapM_Forall2 {A B : Type} (f : A -> result B) (l : list A)
    (bs : list B) :
  mapM f l = Ok bs -> Forall2 (fun a b => f a = Ok b) l bs.
Proof.
  revert bs. induction l as [|a t IH]; intros bs H; cbn [mapM] in H.
  - injection H as <-. constructor.
  - destruct (f a) as [b|e] eqn:Ea; cbn [bind] in H; [|discriminate].
    destruct (mapM f t) as [bs'|e] eqn:Et; cbn [bind] in H; [|discriminate].
    injection H as <-. constructor; [exact Ea | apply IH; reflexivity].
Qed.

Lemma mapM_app {A B : Type} (f : A -> result B) (l1 l2 : list A) :
  mapM f (l1 ++ l2)
  = bs1 <- mapM f l1 ;; bs2 <- mapM f l2 ;; Ok (bs1 ++ bs2).
Proof.
  induction l1 as [|a t IH]; cbn [mapM app bind].
  - destruct (mapM f l2); reflexivity.
  - destruct (f a); cbn [bind]; [|reflexivity].
    rewrite IH. destruct (mapM f t); cbn [bind]; [|reflexivity].
    destruct (mapM f l2); reflexivity.
Qed.

Lemma line_width_and_std_width (L : Lib) (img : image)
    (mp : list float64) (scale : Q) (edges : Z * Z) (w s : float64) :
  line_width_and_std L img mp scale edges = Ok (w, s) ->
  w = width_of scale edges.
Proof.
  destruct edges as [peak valley]. unfold line_width_and_std.
  destruct (mapM _ _); cbn [bind]; [|discriminate].
  intros H. injection H as <- _. reflexivity.
Qed.

Lemma get_line_width_data_widths (L : Lib) (img : image)
    (mp : list float64) (le te : list Z) (scale : Q)
    (ws ss : list float64) :
  get_line_width_data L img mp le te scale = Ok (ws, ss) ->
  ws = map (width_of scale) (combine le te)
  /\ length ss = length ws.
Proof.
  unfold get_line_width_data.
  destruct (mapM _ _) as [rs|e] eqn:E; cbn [bind]; [|discriminate].
  intros H. injection H as <- <-.
  split; [|rewrite !length_map; reflexivity].
  apply mapM_Forall2 in E.
  induction E as [|a [w s] l rs Ha _ IH]; [reflexivity|].
  cbn [map fst]. f_equal; [|exact IH].
  eapply line_width_and_std_width, Ha.
Qed.

(** The function returns exactly when the body succeeds on every pair. *)
Lemma get_line_width_data_returns (L : Lib) (img : image)
    (mp : list float64) (le te : list Z) (scale : Q) :
  is_ok (get_line_width_data L img mp le te scale)
  = forallb (fun e => is_ok (line_width_and_std L img mp scale e))
            (combine le te).
Proof.
  unfold get_line_width_data.
  induction (combine le te) as [|e t IH]; [reflexivity|].
  cbn [mapM forallb].
  destruct (line_width_and_std L img mp scale e); cbn [bind is_ok andb];
    [|reflexivity].
  rewrite <- IH. destruct (mapM _ t); reflexivity.
Qed.

Lemma nth_error_combine {A B : Type} (la : list A) (lb : list B) (i : nat)
    (a : A) (b : B) :
  nth_error la i = Some a -> nth_error lb i = Some b ->
  nth_error (combine la lb) i = Some (a, b).
Proof.
  revert lb i. induction la as [|x la IH]; intros lb i Ha Hb.
  - destruct i; discriminate.
  - destruct lb as [|y lb]; [destruct i; discriminate|].
    destruct i as [|i]; cbn in *.
    + congruence.
    + apply IH; assumption.
Qed.

(** C3: for edge sequences of equal length, [get_line_width_data] returns
    exactly when the loop body succeeds on every pair of edges; the widths it
    returns are as many as the edges, and the i-th is
    [(trailing_edges[i] - leading_edges[i]) * scale]; for a single line of
    pixel width [W] the one width returned is [W * scale]. *)
Theorem line_widths_pair_edges_indexwise (L : Lib) (img : image)
    (mp : list float64) (le te : list Z) (scale : Q) :
  length le = length te ->
  is_ok (get_line_width_data L img mp le te scale)
  = forallb (fun e => is_ok (line_width_and_std L img mp scale e))
            (combine le te)
  /\ forall ws ss,
       get_line_width_data L img mp le te scale = Ok (ws, ss) ->
       length ws = length le
       /\ (forall i peak valley,
              nth_error le i = Some peak -> nth_error te i = Some valley ->
              nth_error ws i
              = Some (Fin (inject_Z (valley - peak) * scale)))
       /\ (forall peak W,
              le = [peak] -> te = [peak + W] ->
              ws = [Fin (inject_Z W * scale)]).
Proof.
  intros Hlen. split; [apply get_line_width_data_returns|].
  intros ws ss Hrun.
  destruct (get_line_width_data_widths _ _ _ _ _ _ _ _ Hrun) as [-> _].
  split; [|split].
  - rewrite length_map, length_combine. lia.
  - intros i peak valley Hp Hv.
    rewrite nth_error_map, (nth_error_combine _ _ _ _ _ Hp Hv).
    reflexivity.
  - intros peak W -> ->. cbn. unfold width_of, of_Z. cbn.
    replace (peak + W - peak) with W by lia. reflexivity.
Qed.

Lemma line_widths_pair_edges_indexwise_witness :
  exists ws ss,
    get_line_width_data plain_lib line_image line_profile [12] [18] (1 # 2)
    = Ok (ws, ss)
    /\ ws = [Fin (inject_Z 6 * (1 # 2))].
Proof.
  eexists. eexists. split; [vm_compute; reflexivity|].
  eapply (proj2 (line_widths_pair_edges_indexwise plain_lib line_image
                   line_profile [12] [12 + 6] (1 # 2) eq_refl)).
  - vm_compute. reflexivity.
  - reflexivity.
  - reflexivity.
Defined.

Lemma combine_truncates {A B : Type} (la : list A) (lb : list B) :
  combine la lb
  = combine (firstn (Nat.min (length la) (length lb)) la)
            (firstn (Nat.min (length la) (length lb)) lb).
Proof.
  revert lb. induction la as [|a la IH]; intros lb; [reflexivity|].
  destruct lb as [|b lb]; [reflexivity|].
  cbn. f_equal. apply IH.
Qed.

(** C2, as the code has it: the function has no edge-count check.  Edge
    sequences of different lengths are paired index-wise up to the shorter
    one, the surplus edges are ignored, and whenever the call returns it
    returns min(len(leading_edges), len(trailing_edges)) widths, the i-th
    being [(trailing_edges[i] - leading_edges[i]) * scale]. *)
Theorem line_widths_zip_truncates (L : Lib) (img : image)
    (mp : list float64) (le te : list Z) (scale : Q) :
  length le <> length te ->
  let m := Nat.min (length le) (length te) in
  get_line_width_data L img mp le te scale
  = get_line_width_data L img mp (firstn m le) (firstn m te) scale
  /\ (forall ws ss,
         get_line_width_data L img mp le te scale = Ok (ws, ss) ->
         length ws = m
         /\ forall i peak valley,
             nth_error le i = Some peak -> nth_error te i = Some valley ->
             nth_error ws i = Some (Fin (inject_Z (valley - peak) * scale))).
Proof.
  intros _ m. split.
  - unfold get_line_width_data. subst m.
    rewrite <- combine_truncates. reflexivity.
  - intros ws ss Hrun.
    destruct (get_line_width_data_widths _ _ _ _ _ _ _ _ Hrun) as [-> _].
    split.
    + rewrite length_map, length_combine. reflexivity.
    + intros i peak valley Hp Hv.
      rewrite nth_error_map, (nth_error_combine _ _ _ _ _ Hp Hv).
      reflexivity.
Qed.

Lemma line_widths_zip_truncates_witness :
  length [12; 25] <> length [18]
  /\ get_line_width_data plain_lib line_image line_profile [12; 25] [18]
                         (1 # 2)
     = get_line_width_data plain_lib line_image line_profile [12] [18]
                           (1 # 2).
Proof.
  assert (H : length [12; 25] <> length [18]) by (simpl; lia).
  split; [exact H|].
  exact (proj1 (line_widths_zip_truncates plain_lib line_image line_profile
                  [12; 25] [18] (1 # 2) H)).
Defined.

(** C2 as stated fails with two leading edges and one trailing edge: the
    call returns the width of the first pair and drops the second leading
    edge. *)
Lemma mismatched_edges_return_widths :
  length [12; 25] <> length [18]
  /\ get_line_width_data plain_lib line_image line_profile [12; 25] [18]
                         (1 # 2)
     = Ok ([Fin (6 # 2)], [Fin 0]).
Proof.
  split; [simpl; lia | vm_compute; reflexivity].
Qed.

(** With no trailing edge at all nothing is paired and nothing is computed,
    whatever the library does. *)
Lemma no_trailing_edges_no_widths (L : Lib) (img : image)
    (mp : list float64) (le : list Z) (scale : Q) :
  get_line_width_data L img mp le [] scale = Ok ([], []).
Proof.
  unfold get_line_width_data. destruct le; reflexivity.
Qed.

(** ** Translation *)

Lemma in_range_from (start : Z) (count : nat) (i : Z) :
  In i (range_from start count) <-> start <= i < start + Z.of_nat count.
Proof.
  revert start. induction count as [|c IH]; intros start; cbn [range_from In].
  - lia.
  - rewrite IH. lia.
Qed.

Lemma in_range (start stop i : Z) :
  In i (range start stop) <-> start <= i < stop.
Proof. unfold range. rewrite in_range_from. lia. Qed.

Lemma length_range_from (start : Z) (count : nat) :
  length (range_from start count) = count.
Proof.
  revert start. induction count; intros; simpl; [reflexivity|].
  f_equal. auto.
Qed.

Lemma len_range (start stop : Z) :
  len (range start stop) = Z.max 0 (stop - start).
Proof. unfold len, range. rewrite length_range_from. lia. Qed.

Lemma nth_error_range_from (start : Z) (count i : nat) :
  (i < count)%nat ->
  nth_error (range_from start count) i = Some (start + Z.of_nat i).
Proof.
  revert start i. induction count as [|c IH]; intros start i Hi; [lia|].
  destruct i as [|i]; cbn.
  - f_equal. lia.
  - rewrite IH by lia. f_equal. lia.
Qed.

Lemma range_from_app (start : Z) (c1 c2 : nat) :
  range_from start (c1 + c2)
  = range_from start c1 ++ range_from (start + Z.of_nat c1) c2.
Proof.
  revert start. induction c1 as [|c IH]; intros start.
  - cbn. f_equal. lia.
  - cbn [Nat.add range_from app]. f_equal. rewrite IH. do 2 f_equal. lia.
Qed.

Lemma range_split (start mid stop : Z) :
  start <= mid < stop ->
  range start stop = range start mid ++ mid :: range (mid + 1) stop.
Proof.
  intros H. unfold range.
  replace (Z.to_nat (stop - start))
    with (Z.to_nat (mid - start) + S (Z.to_nat (stop - (mid + 1))))%nat
    by lia.
  rewrite range_from_app. cbn [range_from].
  f_equal. f_equal; [lia | f_equal; lia].
Qed.

Lemma mapM_ext_in {A B : Type} (f : A -> result B) (g : A -> B)
    (l : list A) :
  (forall a, In a l -> f a = Ok (g a)) -> mapM f l = Ok (map g l).
Proof.
  induction l as [|a t IH]; intros H; [reflexivity|].
  cbn [mapM map]. rewrite (H a) by (left; reflexivity). cbn [bind].
  rewrite IH by (intros; apply H; right; assumption). reflexivity.
Qed.

Lemma mapM_raise_at {A B : Type} (f : A -> result B) (g : A -> B)
    (l1 l2 : list A) (a : A) (e : exn) :
  (forall x, In x l1 -> f x = Ok (g x)) ->
  f a = Raise e ->
  mapM f (l1 ++ a :: l2) = Raise e.
Proof.
  intros H1 Ha. rewrite mapM_app, (mapM_ext_in f g l1 H1). cbn [bind mapM].
  rewrite Ha. reflexivity.
Qed.

Lemma py_index_in_bounds {A : Type} (l : list A) (i : Z) (d : A) :
  0 <= i < len l -> py_index l i = Ok (nth (Z.to_nat i) l d).
Proof.
  intros H. unfold py_index.
  destruct (i <? - len l) eqn:E1; [apply Z.ltb_lt in E1; lia|].
  destruct (len l <=? i) eqn:E2; [apply Z.leb_le in E2; lia|].
  destruct (i <? 0) eqn:E3; [apply Z.ltb_lt in E3; lia|].
  cbn [orb].
  destruct (nth_error l (Z.to_nat i)) as [a|] eqn:E.
  - f_equal. symmetry. apply nth_error_nth, E.
  - apply nth_error_None in E. unfold len in H. lia.
Qed.

Lemma py_index_past_end {A : Type} (l : list A) (i : Z) :
  len l <= i -> py_index l i = Raise IndexError.
Proof.
  intros H. unfold py_index.
  apply Z.leb_le in H. rewrite H, orb_true_r. reflexivity.
Qed.

Lemma translation_at_in_bounds (le te : list Z) (scale : Q) (i : Z) :
  0 <= i -> (i + 1) * 2 < len le -> i * 2 + 1 < len te ->
  translation_at le te scale i = Ok (translation_value le te scale i).
Proof.
  intros Hi Hle Hte. unfold translation_at.
  rewrite (py_index_in_bounds le ((i + 1) * 2) 0) by lia. cbn [bind].
  rewrite (py_index_in_bounds te (i * 2 + 1) 0) by lia. cbn [bind].
  rewrite (py_index_in_bounds le (i * 2 + 1) 0) by lia. cbn [bind].
  rewrite (py_index_in_bounds te (i * 2) 0) by lia. cbn [bind].
  reflexivity.
Qed.

Lemma translation_at_te_short (le te : list Z) (scale : Q) (i : Z) :
  0 <= i -> (i + 1) * 2 < len le -> len te <= i * 2 + 1 ->
  translation_at le te scale i = Raise IndexError.
Proof.
  intros Hi Hle Hte. unfold translation_at.
  rewrite (py_index_in_bounds le ((i + 1) * 2) 0) by lia. cbn [bind].
  rewrite (py_index_past_end te) by lia. reflexivity.
Qed.

Lemma quot_len_half {A : Type} (l : list A) :
  Z.quot (len l) 2 = len l / 2.
Proof. apply Z.quot_div_nonneg; [apply len_nonneg | lia]. Qed.

Lemma np_std_empty (L : Lib) : np_std L [] = NaN.
Proof. reflexivity. Qed.

(** The count [n], and the values, when every index is in bounds. *)
Lemma translation_of_edges_in_bounds (L : Lib) (le te : list Z) (scale : Q) :
  let n := len le / 2 - 1 in
  (forall i, 0 <= i < n -> (i + 1) * 2 < len le /\ i * 2 + 1 < len te) ->
  translation_of_edges L le te scale
  = Ok (map (translation_value le te scale) (range 0 n),
        np_std L (map (translation_value le te scale) (range 0 n))).
Proof.
  intros n Hin. unfold translation_of_edges.
  rewrite quot_len_half. fold n.
  rewrite (mapM_ext_in _ (translation_value le te scale)).
  - reflexivity.
  - intros i Hi. apply in_range in Hi. destruct (Hin i Hi).
    apply translation_at_in_bounds; lia.
Qed.

(** Too few trailing edges for the count that the leading edges give. *)
Lemma translation_of_edges_te_short (L : Lib) (le te : list Z) (scale : Q) :
  let n := len le / 2 - 1 in
  len te < 2 * n ->
  translation_of_edges L le te scale = Raise IndexError.
Proof.
  intros n Hte. unfold translation_of_edges.
  rewrite quot_len_half. fold n.
  pose proof (len_nonneg te) as Hnn.
  assert (Hn : 2 * n + 2 <= len le)
    by (subst n; Z.div_mod_to_equations; lia).
  set (i0 := len te / 2).
  assert (Hi0 : 0 <= i0 < n) by (subst i0; Z.div_mod_to_equations; lia).
  assert (Hi0' : 2 * i0 <= len te < 2 * i0 + 2)
    by (subst i0; Z.div_mod_to_equations; lia).
  clearbody i0 n.
  rewrite (range_split 0 i0 n Hi0).
  rewrite (mapM_raise_at _ (translation_value le te scale) _ _ _ IndexError).
  - reflexivity.
  - intros i Hi. apply in_range in Hi.
    apply translation_at_in_bounds; lia.
  - apply translation_at_te_short; lia.
Qed.

Lemma get_translation_unfold (L : Lib) (profile dy : list float64)
    (scale : Q) :
  filter_data L (get_intensity_profile_dy profile 5) 3 (1 # 10) = Ok dy ->
  get_translation L profile scale
  = translation_of_edges L (get_leading_edge_positions dy (1 # 10))
                         (get_trailing_edge_positions dy (1 # 10)) scale.
Proof. intros H. unfold get_translation. rewrite H. reflexivity. Qed.

(** When the smoothing raises, so does [get_translation]. *)
Lemma get_translation_filter_raises (L : Lib) (profile : list float64)
    (scale : Q) (e : exn) :
  filter_data L (get_intensity_profile_dy profile 5) 3 (1 # 10) = Raise e ->
  get_translation L profile scale = Raise e.
Proof. intros H. unfold get_translation. rewrite H. reflexivity. Qed.

(** C4, as the code has it: when the smoothing succeeds and gives the
    derivative [dy], with [le] and [te] the leading and trailing edges of
    [dy] and [n = floor(len(le)/2) - 1], [get_translation] returns, provided
    the indices used are within both edge arrays, exactly [max(0, n)]
    translation values together with their standard deviation; the i-th
    value is
    [((le[2(i+1)] - te[2i+1]) - (le[2i+1] - te[2i])) * scale / 2].
    With 8 edges of each kind it returns 3 values. *)
Theorem get_translation_count_and_values (L : Lib)
    (profile dy : list float64) (scale : Q) :
  filter_data L (get_intensity_profile_dy profile 5) 3 (1 # 10) = Ok dy ->
  let le := get_leading_edge_positions dy (1 # 10) in
  let te := get_trailing_edge_positions dy (1 # 10) in
  let n := len le / 2 - 1 in
  ((forall i, 0 <= i < n -> (i + 1) * 2 < len le /\ i * 2 + 1 < len te) ->
   exists T,
     get_translation L profile scale = Ok (T, np_std L T)
     /\ len T = Z.max 0 n
     /\ forall i, 0 <= i < n ->
          nth_error T (Z.to_nat i) = Some (translation_value le te scale i))
  /\ (len le = 8 -> len te = 8 ->
      exists T,
        get_translation L profile scale = Ok (T, np_std L T) /\ len T = 3).
Proof.
  intros Hdy le te n.
  assert (Hmain :
    (forall i, 0 <= i < n -> (i + 1) * 2 < len le /\ i * 2 + 1 < len te) ->
    exists T,
      get_translation L profile scale = Ok (T, np_std L T)
      /\ len T = Z.max 0 n
      /\ forall i, 0 <= i < n ->
           nth_error T (Z.to_nat i) = Some (translation_value le te scale i)).
  { intros Hin.
    exists (map (translation_value le te scale) (range 0 n)).
    split; [|split].
    - rewrite (get_translation_unfold L profile dy scale Hdy).
      apply translation_of_edges_in_bounds. exact Hin.
    - unfold len at 1. rewrite length_map. fold (len (range 0 n)).
      rewrite len_range. lia.
    - intros i Hi. rewrite nth_error_map. unfold range.
      rewrite nth_error_range_from by lia. cbn [option_map].
      do 2 f_equal. lia. }
  split; [exact Hmain|].
  intros H8 H8'.
  assert (Hn : n = 3) by (subst n; rewrite H8; reflexivity).
  destruct Hmain as (T & Hrun & Hlen & _).
  - intros i Hi. lia.
  - exists T. split; [exact Hrun | lia].
Qed.

Lemma get_translation_count_and_values_witness :
  exists T,
    get_translation plain_lib eight_line_profile (1 # 2)
    = Ok (T, np_std plain_lib T)
    /\ len T = 3.
Proof.
  refine (proj2 (get_translation_count_and_values plain_lib
                   eight_line_profile _ (1 # 2) _) _ _).
  - vm_compute. reflexivity.
  - vm_compute. reflexivity.
  - vm_compute. reflexivity.
Defined.

(** C4 as stated fails on a flat profile: there are no leading edges, the
    count formula gives -1, and the call returns an empty list. *)
Lemma flat_profile_negative_count :
  filter_data plain_lib (get_intensity_profile_dy flat_profile 5) 3 (1 # 10)
  = Ok (repeat (Fin 0) 19)
  /\ get_leading_edge_positions (repeat (Fin 0) 19) (1 # 10) = []
  /\ len (@nil Z) / 2 - 1 = -1
  /\ get_translation plain_lib flat_profile 1 = Ok ([], NaN).
Proof. repeat split. Qed.

(** C6, as the code has it: the function has no edge-count check.  With
    fewer than 4 leading edges it returns an empty list of translations and
    a nan standard deviation; with at least 4 leading edges it raises
    [IndexError] when the trailing edges are fewer than
    [2 * (floor(len(le)/2) - 1)], and returns otherwise, also when there are
    only 2 or 3 trailing edges. *)
Theorem get_translation_few_edges (L : Lib) (profile dy : list float64)
    (scale : Q) :
  filter_data L (get_intensity_profile_dy profile 5) 3 (1 # 10) = Ok dy ->
  let le := get_leading_edge_positions dy (1 # 10) in
  let te := get_trailing_edge_positions dy (1 # 10) in
  let n := len le / 2 - 1 in
  (len le < 4 -> get_translation L profile scale = Ok ([], NaN))
  /\ (4 <= len le -> len te < 2 * n ->
      get_translation L profile scale = Raise IndexError)
  /\ (4 <= len le -> 2 * n <= len te ->
      is_ok (get_translation L profile scale) = true).
Proof.
  intros Hdy le te n.
  rewrite (get_translation_unfold L profile dy scale Hdy). fold le te.
  pose proof (len_nonneg le) as Hle.
  split; [|split].
  - intros Hfew.
    assert (Hn : n <= 0) by (subst n; Z.div_mod_to_equations; lia).
    rewrite translation_of_edges_in_bounds by (fold n; lia).
    fold n. unfold range.
    replace (Z.to_nat (n - 0)) with O by lia. reflexivity.
  - intros _ Hshort. apply translation_of_edges_te_short. exact Hshort.
  - intros _ Henough.
    assert (Hn : 2 * n + 2 <= len le)
      by (subst n; Z.div_mod_to_equations; lia).
    rewrite translation_of_edges_in_bounds by (fold n; lia).
    reflexivity.
Qed.

Lemma get_translation_few_edges_witness :
  get_translation plain_lib staircase_profile (1 # 2) = Raise IndexError.
Proof.
  refine (proj1 (proj2 (get_translation_few_edges plain_lib
                          staircase_profile _ (1 # 2) _)) _ _).
  - vm_compute. reflexivity.
  - vm_compute. discriminate.
  - vm_compute. reflexivity.
Defined.

(** C6 as stated fails on a flat profile, which has no edge of either kind:
    the call returns. *)
Lemma flat_profile_translation_returns :
  get_leading_edge_positions (repeat (Fin 0) 19) (1 # 10) = []
  /\ get_trailing_edge_positions (repeat (Fin 0) 19) (1 # 10) = []
  /\ is_ok (get_translation plain_lib flat_profile 1) = true.
Proof. repeat split. Qed.

(** Three trailing edges are fewer than 4, and the call returns one
    translation value. *)
Lemma open_line_translation_returns :
  get_translation plain_lib open_line_profile (1 # 2)
  = Ok ([Fin (1 # 4)], Fin 0).
Proof. vm_compute. reflexivity. Qed.

(** ** Rotation *)

(** A band of one row: the mean profile is that row's profile. *)
Lemma get_mean_single_row (img : image) (row : Z) :
  get_mean_intensity_profile img row (row + 1)
  = p <- single_row_band img row ;; Ok (Array1 p).
Proof.
  unfold get_mean_intensity_profile, single_row_band, range.
  destruct (row + 1 - row <? 0) eqn:E; [apply Z.ltb_lt in E; lia|].
  replace (Z.to_nat (row + 1 - row)) with 1%nat by lia.
  cbn [range_from mapM].
  destruct (get_intensity_profile img row true) as [p|e]; reflexivity.
Qed.

Lemma rotation_angles_length (L : Lib) (top bottom : list float64) (y : Z)
    (scale : Q) :
  length (rotation_angles L top bottom y scale)
  = Nat.min (length top) (length bottom).
Proof. unfold rotation_angles. rewrite length_map. apply length_combine. Qed.

Lemma rotation_angles_nth (L : Lib) (top bottom : list float64) (y : Z)
    (scale : Q) (i : nat) (t b : float64) :
  nth_error top i = Some t -> nth_error bottom i = Some b ->
  nth_error (rotation_angles L top bottom y scale) i
  = Some (fdiv (fabs (rad2deg L (arctan2 L (fsub t b)
                                           (Fin (inject_Z y * scale)))))
               (of_Z 2)).
Proof.
  intros Ht Hb. unfold rotation_angles.
  rewrite nth_error_map, (nth_error_combine _ _ _ _ _ Ht Hb). reflexivity.
Qed.

(** The loop over [range(min(len(bottom), len(top)))] visits the pairs of
    [zip(top, bottom)] and never indexes out of bounds. *)
Lemma rotation_loop (L : Lib) (top bottom : list float64) (y : Z)
    (scale : Q) :
  mapM (rotation_angle_at L top bottom y scale)
       (range 0 (Z.min (len bottom) (len top)))
  = Ok (map (fun tb => rad2deg L (arctan2 L (fsub (fst tb) (snd tb))
                                          (Fin (inject_Z y * scale))))
            (combine top bottom)).
Proof.
  set (g := fun i : Z =>
              rad2deg L (arctan2 L (fsub (nth (Z.to_nat i) top NaN)
                                         (nth (Z.to_nat i) bottom NaN))
                                 (Fin (inject_Z y * scale)))).
  rewrite (mapM_ext_in _ g).
  - f_equal. apply nth_error_ext. intros i.
    rewrite !nth_error_map. unfold range, len.
    destruct (Nat.lt_ge_cases i (Nat.min (length top) (length bottom)))
      as [Hlt | Hge].
    + rewrite nth_error_range_from by lia.
      destruct (nth_error top i) as [t|] eqn:Et;
        [|apply nth_error_None in Et; lia].
      destruct (nth_error bottom i) as [b|] eqn:Eb;
        [|apply nth_error_None in Eb; lia].
      rewrite (nth_error_combine _ _ _ _ _ Et Eb). cbn [option_map fst snd].
      unfold g. replace (Z.to_nat (0 + Z.of_nat i)) with i by lia.
      rewrite (nth_error_nth _ _ NaN Et), (nth_error_nth _ _ NaN Eb).
      reflexivity.
    + assert (H1 : nth_error
                     (range_from 0 (Z.to_nat
                        (Z.min (Z.of_nat (length bottom))
                               (Z.of_nat (length top)) - 0))) i = None).
      { apply nth_error_None. rewrite length_range_from. lia. }
      assert (H2 : nth_error (combine top bottom) i = None).
      { apply nth_error_None. rewrite length_combine. lia. }
      rewrite H1, H2. reflexivity.
  - intros i Hi. apply in_range in Hi. unfold rotation_angle_at.
    rewrite (py_index_in_bounds top i NaN) by lia. cbn [bind].
    rewrite (py_index_in_bounds bottom i NaN) by lia. reflexivity.
Qed.

(** [get_rotation] in closed form: one row per band, the angles over the
    zipped translations. *)
Lemma get_rotation_closed_form (L : Lib) (img : image) (scale : Q) :
  get_rotation L img scale
  = (top <- single_row_band img 10 ;;
     translations_top <- get_translation L top scale ;;
     bottom <- single_row_band img (shape0 img - 1) ;;
     translations_bottom <- get_translation L bottom scale ;;
     let angle :=
       rotation_angles L (fst translations_top) (fst translations_bottom)
                       (shape0 img) scale in
     Ok (np_mean angle, np_std L angle)).
Proof.
  unfold get_rotation. set (y := shape0 img).
  replace 11 with (10 + 1) by reflexivity.
  rewrite get_mean_single_row.
  replace (get_mean_intensity_profile img (y - 1) y)
    with (get_mean_intensity_profile img (y - 1) (y - 1 + 1))
    by (f_equal; lia).
  rewrite get_mean_single_row.
  destruct (single_row_band img 10) as [top|e]; cbn [bind as_array];
    [|reflexivity].
  destruct (get_translation L top scale) as [tt|e]; cbn [bind];
    [|reflexivity].
  destruct (single_row_band img (y - 1)) as [bottom|e];
    cbn [bind as_array]; [|reflexivity].
  destruct (get_translation L bottom scale) as [tb|e]; cbn [bind];
    [|reflexivity].
  rewrite rotation_loop. cbn [bind]. unfold rotation_angles.
  rewrite !map_map. reflexivity.
Qed.

(** Two images of the same height that agree on row 10 and on the last row
    get the same rotation estimate: no other row is read. *)
Lemma get_rotation_reads_two_rows (L : Lib) (img img' : image) (scale : Q) :
  shape0 img = shape0 img' ->
  py_index img 10 = py_index img' 10 ->
  py_index img (shape0 img - 1) = py_index img' (shape0 img' - 1) ->
  get_rotation L img scale = get_rotation L img' scale.
Proof.
  intros Hy Htop Hbottom. rewrite !get_rotation_closed_form.
  unfold single_row_band, get_intensity_profile.
  rewrite Htop, Hbottom, Hy. reflexivity.
Qed.

(** C7, as the code has it: each band is a single row.  [get_rotation]
    computes the translations on the profile of row 10 and on the profile of
    the last row of the image; for each of the min(top count, bottom count)
    matched indices it forms
    [|rad2deg(atan2(top_T_i - bottom_T_i, image_height * scale))| / 2], and
    it returns the mean and the standard deviation of these angles. *)
Theorem get_rotation_single_row_bands (L : Lib) (img : image) (scale : Q) :
  let y := shape0 img in
  get_rotation L img scale
  = (top <- single_row_band img 10 ;;
     translations_top <- get_translation L top scale ;;
     bottom <- single_row_band img (y - 1) ;;
     translations_bottom <- get_translation L bottom scale ;;
     let angle :=
       rotation_angles L (fst translations_top) (fst translations_bottom)
                       y scale in
     Ok (np_mean angle, np_std L angle))
  /\ forall top bottom,
       length (rotation_angles L top bottom y scale)
       = Nat.min (length top) (length bottom)
       /\ forall i t b,
           nth_error top i = Some t -> nth_error bottom i = Some b ->
           nth_error (rotation_angles L top bottom y scale) i
           = Some (fdiv (fabs (rad2deg L (arctan2 L (fsub t b)
                                            (Fin (inject_Z y * scale)))))
                        (of_Z 2)).
Proof.
  intros y. split.
  - apply get_rotation_closed_form.
  - intros top bottom. split.
    + apply rotation_angles_length.
    + intros i t b. apply rotation_angles_nth.
Qed.

Lemma get_rotation_single_row_bands_witness :
  get_rotation plain_lib wide_banded_image (1 # 2)
  = Ok (Fin (0 # 2048), Fin 0)
  /\ nth_error (rotation_angles plain_lib [Fin 1] [Fin 3; Fin 4]
                                (shape0 wide_banded_image) (1 # 2)) 0
     = Some (fdiv (fabs (rad2deg plain_lib
                           (arctan2 plain_lib (fsub (Fin 1) (Fin 3))
                                    (Fin (inject_Z (shape0 wide_banded_image)
                                          * (1 # 2))))))
                  (of_Z 2)).
Proof.
  split.
  - rewrite (proj1 (get_rotation_single_row_bands plain_lib wide_banded_image
                      (1 # 2))).
    vm_compute. reflexivity.
  - apply (proj2 (proj2 (get_rotation_single_row_bands plain_lib
                           wide_banded_image (1 # 2))
                    [Fin 1] [Fin 3; Fin 4]) 0%nat);
      reflexivity.
Defined.

(** C7 as stated fails on an image whose second-to-last row is constant
    while row 10 and the last row show the same six lines: the code reads
    row 10 and the last row only, finds the same translations on both and
    returns an angle of 0 with a spread of 0; with two-row bands the
    constant row 11 would be averaged into both bands, both profiles would
    be nan, no edge would be found and the result would be (nan, nan). *)
Lemma rotation_ignores_second_to_last_row :
  get_rotation plain_lib wide_banded_image (1 # 2)
  = Ok (Fin (0 # 2048), Fin 0)
  /\ get_rotation_two_row_bands plain_lib wide_banded_image (1 # 2)
     = Ok (NaN, NaN).
Proof. split; vm_compute; reflexivity. Qed.

(** * Further properties of the module *)

(** ** Derivative *)

Lemma np_diff_length (a : list float64) :
  length (np_diff a) = (length a - 1)%nat.
Proof.
  induction a as [|x t IH]; [reflexivity|].
  destruct t as [|y t']; [reflexivity|].
  cbn [np_diff length] in *. rewrite IH. lia.
Qed.

Lemma np_diff_nth (a : list float64) (i : nat) (u v : float64) :
  nth_error a i = Some u -> nth_error a (S i) = Some v ->
  nth_error (np_diff a) i = Some (fsub v u).
Proof.
  revert i. induction a as [|x t IH]; intros i Hu Hv;
    [destruct i; discriminate|].
  destruct t as [|y t']; [destruct i; discriminate|].
  destruct i as [|i].
  - cbn in Hu, Hv |- *. congruence.
  - cbn [np_diff nth_error]. apply IH; assumption.
Qed.

(** X11: The derivative of a profile is one sample shorter than the profile
    (empty for an empty profile), and its i-th sample is
    [p[i+1] * scale_factor - p[i] * scale_factor]. *)
Theorem derivative_length_and_values (profile : list float64)
    (scale_factor : Z) :
  length (get_intensity_profile_dy profile scale_factor)
  = (length profile - 1)%nat
  /\ forall i u v,
       nth_error profile i = Some u -> nth_error profile (S i) = Some v ->
       nth_error (get_intensity_profile_dy profile scale_factor) i
       = Some (fsub (fmul v (of_Z scale_factor)) (fmul u (of_Z scale_factor))).
Proof.
  unfold get_intensity_profile_dy. split.
  - rewrite np_diff_length, length_map. reflexivity.
  - intros i u v Hu Hv. apply np_diff_nth; rewrite nth_error_map.
    + rewrite Hu. reflexivity.
    + rewrite Hv. reflexivity.
Qed.

Lemma derivative_length_and_values_witness :
  nth_error (get_intensity_profile_dy line_profile 5) 12
  = Some (fsub (fmul (Fin 1) (of_Z 5)) (fmul (Fin 0) (of_Z 5))).
Proof.
  apply (proj2 (derivative_length_and_values line_profile 5) 12%nat);
    reflexivity.
Defined.

(** ** Row profiles: indexing *)

Lemma py_index_before_start {A : Type} (l : list A) (i : Z) :
  i < - len l -> py_index l i = Raise IndexError.
Proof.
  intros H. unfold py_index. apply Z.ltb_lt in H. rewrite H. reflexivity.
Qed.

Lemma py_index_negative {A : Type} (l : list A) (i : Z) :
  - len l <= i < 0 -> py_index l i = py_index l (i + len l).
Proof.
  intros H. unfold py_index.
  destruct (i <? - len l) eqn:E1; [apply Z.ltb_lt in E1; lia|].
  destruct (len l <=? i) eqn:E2; [apply Z.leb_le in E2; lia|].
  destruct (i + len l <? - len l) eqn:E3; [apply Z.ltb_lt in E3; lia|].
  destruct (len l <=? i + len l) eqn:E4; [apply Z.leb_le in E4; lia|].
  destruct (i <? 0) eqn:E5; [|apply Z.ltb_ge in E5; lia].
  destruct (i + len l <? 0) eqn:E6; [apply Z.ltb_lt in E6; lia|].
  reflexivity.
Qed.

(** X8: A row index outside [-R, R) raises [IndexError]; a negative index in
    range reads the row counted from the bottom of the image; a row without
    samples raises [ValueError] (Python's [min] of an empty sequence). *)
Theorem intensity_profile_row_indexing (img : image) (row : Z)
    (invert_profile : bool) :
  (row < - shape0 img \/ shape0 img <= row ->
   get_intensity_profile img row invert_profile = Raise IndexError)
  /\ (- shape0 img <= row < 0 ->
      get_intensity_profile img row invert_profile
      = get_intensity_profile img (row + shape0 img) invert_profile)
  /\ (py_index img row = Ok [] ->
      get_intensity_profile img row invert_profile = Raise ValueError).
Proof.
  unfold get_intensity_profile, shape0. split; [|split].
  - intros [H | H].
    + rewrite py_index_before_start by assumption. reflexivity.
    + rewrite py_index_past_end by assumption. reflexivity.
  - intros H. rewrite py_index_negative by assumption. reflexivity.
  - intros H. rewrite H. reflexivity.
Qed.

Lemma intensity_profile_row_indexing_witness :
  get_intensity_profile sample_image 2 true = Raise IndexError
  /\ get_intensity_profile sample_image (-1) true
     = get_intensity_profile sample_image (-1 + shape0 sample_image) true.
Proof.
  split.
  - apply (proj1 (intensity_profile_row_indexing sample_image 2 true)).
    right. vm_compute. discriminate.
  - apply (proj1 (proj2 (intensity_profile_row_indexing sample_image (-1)
                           true))).
    vm_compute. split; [discriminate | reflexivity].
Defined.

(** ** Scale: return modes, failures, sign *)

(** X1: The flags only select what is returned: every mode runs the same
    computation, so all modes fail with the same exception or all return,
    with the same scale; [return_all] takes precedence over [return_pm]. *)
Theorem get_scale_flags_select_output (L : Lib) (img : image)
    (return_all return_pm : bool) :
  (forall e, get_scale L img return_all return_pm = Raise e ->
     forall ra rp, get_scale L img ra rp = Raise e)
  /\ (forall o, get_scale L img return_all return_pm = Ok o ->
        forall ra rp, exists o',
          get_scale L img ra rp = Ok o' /\ scale_of o' = scale_of o)
  /\ get_scale L img true return_pm = get_scale L img true (negb return_pm).
Proof.
  unfold get_scale.
  destruct (py_index _ 0) as [s|e1]; cbn [bind];
    [|repeat split; intros; try discriminate; congruence].
  destruct (py_int s) as [v|e2]; cbn [bind];
    [|repeat split; intros; try discriminate; congruence].
  destruct (get_scale_bar_size L (infobar_of img)) as [size|e3]; cbn [bind];
    [|repeat split; intros; try discriminate; congruence].
  destruct (py_truediv v size) as [scale|e4]; cbn [bind];
    [|repeat split; intros; try discriminate; congruence].
  destruct (py_truediv v (size - 1)) as [q|e5]; cbn [bind];
    [|repeat split; intros; try discriminate; congruence].
  split; [|split].
  - intros e H. destruct return_all, return_pm; discriminate.
  - intros o H ra rp.
    assert (Ho : scale_of o = scale)
      by (destruct return_all, return_pm; injection H as <-; reflexivity).
    rewrite Ho. destruct ra, rp; eexists; split; reflexivity.
  - destruct return_pm; reflexivity.
Qed.

Lemma get_scale_flags_select_output_witness :
  exists o',
    get_scale bar_206_lib sample_image true false = Ok o'
    /\ scale_of o' = scale_of (ScaleOnly (100 # 200)).
Proof.
  apply (proj1 (proj2 (get_scale_flags_select_output bar_206_lib
                         sample_image false false))
           (ScaleOnly (100 # 200))).
  vm_compute. reflexivity.
Defined.

(** X2: How [get_scale] fails, in the order the code reaches the failures: no
    text read gives [IndexError]; a label that is not an integer gives
    [ValueError]; no line detected gives [TypeError]; and a bar of exactly
    one pixel gives [ZeroDivisionError] in every mode, also when only the
    scale is asked for, because the uncertainty is computed first. *)
Theorem get_scale_failures (L : Lib) (img : image)
    (return_all return_pm : bool) :
  (readtext L (label_region (infobar_of img)) = [] ->
   get_scale L img return_all return_pm = Raise IndexError)
  /\ (forall s texts e,
        readtext L (label_region (infobar_of img)) = s :: texts ->
        py_int s = Raise e ->
        e = ValueError
        /\ get_scale L img return_all return_pm = Raise ValueError)
  /\ (forall s texts v,
        readtext L (label_region (infobar_of img)) = s :: texts ->
        py_int s = Ok v ->
        hough_lines L (bar_region (infobar_of img)) = None ->
        get_scale L img return_all return_pm = Raise TypeError)
  /\ (forall s texts v x1 y1 x2 y2 more,
        readtext L (label_region (infobar_of img)) = s :: texts ->
        py_int s = Ok v ->
        hough_lines L (bar_region (infobar_of img))
          = Some ((x1, y1, x2, y2) :: more) ->
        x2 - x1 = 7 ->
        get_scale L img return_all return_pm = Raise ZeroDivisionError).
Proof.
  unfold get_scale, get_str_from_img. split; [|split; [|split]].
  - intros H. rewrite H. reflexivity.
  - intros s texts e Htext Hint.
    assert (He : e = ValueError)
      by (unfold py_int in Hint; destruct (int_of_chars _); congruence).
    split; [exact He|]. subst e.
    rewrite Htext, py_index_head. cbn [bind]. rewrite Hint. reflexivity.
  - intros s texts v Htext Hint Hlines.
    rewrite Htext, py_index_head. cbn [bind]. rewrite Hint. cbn [bind].
    unfold get_scale_bar_size. rewrite Hlines. reflexivity.
  - intros s texts v x1 y1 x2 y2 more Htext Hint Hlines Hspan.
    rewrite Htext, py_index_head. cbn [bind]. rewrite Hint. cbn [bind].
    rewrite (get_scale_bar_size_span L _ _ _ _ _ _ Hlines). cbn [bind].
    rewrite Hspan. reflexivity.
Qed.

Lemma get_scale_failures_witness :
  get_scale bar_7_lib sample_image false false = Raise ZeroDivisionError.
Proof.
  apply (proj2 (proj2 (proj2 (get_scale_failures bar_7_lib sample_image
                                false false)))
           "100"%string [] 100 0 0 7 0 []); reflexivity.
Defined.

Lemma inject_Z_pos (z : Z) : 0 < z -> (0 < inject_Z z)%Q.
Proof. intros H. unfold Qlt. cbn. lia. Qed.

Lemma inject_Z_pred (z : Z) : (inject_Z (z - 1) == inject_Z z - 1)%Q.
Proof. unfold Qeq. cbn. lia. Qed.

(** X3: For a positive label and a bar of at least two pixels both the scale and
    its uncertainty are positive, and the uncertainty is the scale divided
    by [L - 1]; when the detected segment is shorter than the tick
    correction the bar length is negative and so is the scale. *)
Theorem get_scale_sign (L : Lib) (img : image) (scale_str : string)
    (texts : list string) (label_value : Z) (x1 y1 x2 y2 : Z)
    (more : list segment) :
  readtext L (label_region (infobar_of img)) = scale_str :: texts ->
  py_int scale_str = Ok label_value ->
  hough_lines L (bar_region (infobar_of img))
    = Some ((x1, y1, x2, y2) :: more) ->
  0 < label_value ->
  let Lpx := (x2 - x1) - 6 in
  (2 <= Lpx ->
   exists scale pm,
     get_scale L img false true = Ok (ScalePm scale pm)
     /\ (0 < scale)%Q /\ (0 < pm)%Q
     /\ (pm == scale / (inject_Z Lpx - 1))%Q)
  /\ (Lpx < 0 ->
      exists scale pm,
        get_scale L img false true = Ok (ScalePm scale pm)
        /\ (scale < 0)%Q).
Proof.
  intros Htext Hint Hlines Hpos Lpx.
  assert (Hrun : Lpx <> 0 -> Lpx <> 1 ->
            get_scale L img false true
            = Ok (ScalePm (inject_Z label_value / inject_Z Lpx)
                          (inject_Z label_value / inject_Z (Lpx - 1)
                           - inject_Z label_value / inject_Z Lpx))).
  { intros H0 H1. unfold get_scale, get_str_from_img.
    rewrite Htext, py_index_head. cbn [bind]. rewrite Hint. cbn [bind].
    rewrite (get_scale_bar_size_span L _ _ _ _ _ _ Hlines). cbn [bind].
    fold Lpx. unfold py_truediv.
    destruct (Lpx =? 0) eqn:E0; [apply Z.eqb_eq in E0; contradiction|].
    cbn [bind].
    destruct (Lpx - 1 =? 0) eqn:E1; [apply Z.eqb_eq in E1; lia|].
    reflexivity. }
  pose proof (inject_Z_pos label_value Hpos) as Hv.
  split.
  - intros H2. do 2 eexists. split; [apply Hrun; lia|].
    pose proof (inject_Z_pos Lpx ltac:(lia)) as Hl.
    pose proof (inject_Z_pos (Lpx - 1) ltac:(lia)) as Hl1.
    rewrite inject_Z_pred in Hl1 |- *.
    set (v := inject_Z label_value) in *. set (l := inject_Z Lpx) in *.
    assert (Hscale : (0 < v / l)%Q).
    { apply Qlt_shift_div_l; [exact Hl | lra]. }
    assert (Hpm : (v / (l - 1) - v / l == v / l / (l - 1))%Q).
    { field. split; lra. }
    split; [exact Hscale|]. split; [|exact Hpm].
    rewrite Hpm. apply Qlt_shift_div_l; [exact Hl1 | lra].
  - intros Hneg. do 2 eexists. split; [apply Hrun; lia|].
    assert (Hl : (inject_Z Lpx < 0)%Q) by (unfold Qlt; cbn; lia).
    set (v := inject_Z label_value) in *. set (l := inject_Z Lpx) in *.
    assert (H : (0 < v / - l)%Q).
    { apply Qlt_shift_div_l; lra. }
    assert (E : (v / - l == - (v / l))%Q) by (field; lra).
    rewrite E in H. lra.
Qed.

Lemma get_scale_sign_witness :
  exists scale pm,
    get_scale bar_206_lib sample_image false true = Ok (ScalePm scale pm)
    /\ (0 < scale)%Q /\ (0 < pm)%Q
    /\ (pm == scale / (inject_Z (206 - 0 - 6) - 1))%Q.
Proof.
  apply (proj1 (get_scale_sign bar_206_lib sample_image "100" [] 100
                  0 0 206 0 [] eq_refl eq_refl eq_refl ltac:(lia))).
  lia.
Defined.

(** ** Normalisation: range and invariance *)

Lemma feq_refl (x : float64) : feq x x.
Proof. destruct x; cbn; try exact I. apply Qeq_refl. Qed.

Lemma feq_sym (x y : float64) : feq x y -> feq y x.
Proof. destruct x, y; cbn; auto. apply Qeq_sym. Qed.

Lemma feq_trans (x y z : float64) : feq x y -> feq y z -> feq x z.
Proof.
  destruct x, y, z; cbn; auto; try contradiction. apply Qeq_trans.
Qed.

Lemma fsub_one_compat (x y : float64) :
  feq x y -> feq (fsub (Fin 1) x) (fsub (Fin 1) y).
Proof.
  destruct x, y; cbn; auto. intros H. rewrite H. reflexivity.
Qed.

Lemma fsub_one_involutive (x : float64) :
  feq (fsub (Fin 1) (fsub (Fin 1) x)) x.
Proof. destruct x; cbn; auto. ring. Qed.

Lemma py_min_max_bounds (r : list Q) :
  r <> [] ->
  exists lo hi,
    py_min r = Ok lo /\ py_max r = Ok hi
    /\ In lo r /\ In hi r
    /\ forall x, In x r -> (lo <= x <= hi)%Q.
Proof.
  intros Hne.
  destruct (py_min_spec r Hne) as (lo & Hlo & Hlo_in & Hlow).
  destruct (py_max_spec r Hne) as (hi & Hhi & Hhi_in & Hup).
  exists lo, hi. repeat split; auto.
Qed.

Lemma normalize_unfold (r : list Q) (lo hi : Q) :
  py_min r = Ok lo -> py_max r = Ok hi ->
  normalize_1D_array r
  = Ok (map (fun x => fdiv (Fin (x - lo)) (Fin (hi - lo))) r).
Proof.
  intros Hlo Hhi. unfold normalize_1D_array. rewrite Hlo, Hhi. reflexivity.
Qed.

(** X7: On a row that holds two different samples, with [lo] its smallest
    and [hi] its largest sample, the i-th normalised value is the finite
    number [(row[i] - lo) / (hi - lo)]: it lies between 0 and 1, it is 0
    exactly on the samples equal to [lo] and 1 exactly on the samples equal
    to [hi], and a larger sample never gets a smaller value. *)
Theorem normalized_values_in_unit_interval (r : list Q) (x y : Q) :
  In x r -> In y r -> ~ x == y ->
  exists lo hi n,
    In lo r /\ In hi r /\ (forall z, In z r -> (lo <= z <= hi)%Q)
    /\ normalize_1D_array r = Ok n
    /\ Forall2 (fun z v =>
                  exists q,
                    v = Fin q
                    /\ (q == (z - lo) / (hi - lo))%Q
                    /\ (0 <= q <= 1)%Q
                    /\ ((q == 0)%Q <-> (z == lo)%Q)
                    /\ ((q == 1)%Q <-> (z == hi)%Q)) r n
    /\ (forall i j zi zj qi qj,
          nth_error r i = Some zi -> nth_error r j = Some zj ->
          nth_error n i = Some (Fin qi) -> nth_error n j = Some (Fin qj) ->
          (zi <= zj)%Q -> (qi <= qj)%Q).
Proof.
  intros Hx Hy Hxy.
  assert (Hne : r <> []) by (destruct r; [contradiction | congruence]).
  destruct (py_min_max_bounds r Hne)
    as (lo & hi & Hlo & Hhi & Hlo_in & Hhi_in & Hb).
  assert (Hden : (0 < hi - lo)%Q).
  { destruct (Hb x Hx), (Hb y Hy).
    destruct (Qlt_le_dec lo hi) as [Hlt | Hge]; [lra|].
    exfalso. apply Hxy. apply Qle_antisym; lra. }
  assert (Hdiv : forall z,
            fdiv (Fin (z - lo)) (Fin (hi - lo))
            = Fin ((z - lo) / (hi - lo))).
  { intros z. unfold fdiv.
    destruct (Qeq_bool (hi - lo) 0) eqn:E; [|reflexivity].
    apply Qeq_bool_iff in E. lra. }
  assert (Hn : normalize_1D_array r
               = Ok (map (fun z => Fin ((z - lo) / (hi - lo))) r)).
  { rewrite (normalize_unfold r lo hi Hlo Hhi). f_equal.
    apply map_ext. exact Hdiv. }
  assert (Hzero : forall z, ((z - lo) / (hi - lo) == 0 <-> z == lo)%Q).
  { intros z. split; intros H.
    - assert (E : (z - lo == (z - lo) / (hi - lo) * (hi - lo))%Q)
        by (field; lra).
      rewrite H in E. lra.
    - rewrite H. field. lra. }
  assert (Hone : forall z, ((z - lo) / (hi - lo) == 1 <-> z == hi)%Q).
  { intros z. split; intros H.
    - assert (E : (z - lo == (z - lo) / (hi - lo) * (hi - lo))%Q)
        by (field; lra).
      rewrite H in E. lra.
    - rewrite H. field. lra. }
  assert (Hmono : forall z z', (z <= z')%Q ->
            ((z - lo) / (hi - lo) <= (z' - lo) / (hi - lo))%Q).
  { intros z z' Hzz. apply Qle_shift_div_l; [exact Hden|].
    setoid_replace ((z - lo) / (hi - lo) * (hi - lo))%Q with (z - lo)%Q
      by (field; lra).
    lra. }
  exists lo, hi, (map (fun z => Fin ((z - lo) / (hi - lo))) r).
  split; [exact Hlo_in|]. split; [exact Hhi_in|]. split; [exact Hb|].
  split; [exact Hn|]. split.
  - clear Hn Hlo Hhi Hx Hy Hne Hlo_in Hhi_in.
    induction r as [|z t IH]; [constructor|].
    cbn [map]. constructor.
    + eexists. split; [reflexivity|]. split; [reflexivity|].
      destruct (Hb z (or_introl eq_refl)) as [Hl Hu].
      split; [|split; [apply Hzero | apply Hone]].
      split.
      * apply Qle_shift_div_l; [exact Hden | lra].
      * apply Qle_shift_div_r; [exact Hden | lra].
    + apply IH. intros w Hw. apply Hb. right. exact Hw.
  - intros i j zi zj qi qj Hi Hj Hqi Hqj Hle.
    rewrite nth_error_map, Hi in Hqi. rewrite nth_error_map, Hj in Hqj.
    cbn in Hqi, Hqj. injection Hqi as <-. injection Hqj as <-.
    apply Hmono, Hle.
Qed.

Lemma normalized_values_in_unit_interval_witness :
  exists lo hi n,
    In lo [3; 1; 2]%Q /\ In hi [3; 1; 2]%Q
    /\ (forall z, In z [3; 1; 2]%Q -> (lo <= z <= hi)%Q)
    /\ normalize_1D_array [3; 1; 2]%Q = Ok n
    /\ Forall2 (fun z v =>
                  exists q,
                    v = Fin q
                    /\ (q == (z - lo) / (hi - lo))%Q
                    /\ (0 <= q <= 1)%Q
                    /\ ((q == 0)%Q <-> (z == lo)%Q)
                    /\ ((q == 1)%Q <-> (z == hi)%Q)) [3; 1; 2]%Q n
    /\ (forall i j zi zj qi qj,
          nth_error [3; 1; 2]%Q i = Some zi ->
          nth_error [3; 1; 2]%Q j = Some zj ->
          nth_error n i = Some (Fin qi) -> nth_error n j = Some (Fin qj) ->
          (zi <= zj)%Q -> (qi <= qj)%Q).
Proof.
  apply (normalized_values_in_unit_interval [3; 1; 2]%Q 1 2).
  - simpl. auto.
  - simpl. auto.
  - intros H. vm_compute in H. discriminate.
Defined.

(** The row [3, 1, 2] normalises to [1, 0, 1/2]: the smallest sample goes to
    0 and the largest to 1, in place. *)
Lemma normalize_three_samples :
  normalize_1D_array [3; 1; 2]%Q = Ok [Fin (2 # 2); Fin (0 # 2); Fin (1 # 2)].
Proof. vm_compute. reflexivity. Qed.

Lemma least_unique (l : list Q) (a b : Q) :
  In a l -> (forall y, In y l -> (a <= y)%Q) ->
  In b l -> (forall y, In y l -> (b <= y)%Q) ->
  (a == b)%Q.
Proof. intros Ha Hla Hb Hlb. apply Qle_antisym; auto. Qed.

Lemma greatest_unique (l : list Q) (a b : Q) :
  In a l -> (forall y, In y l -> (y <= a)%Q) ->
  In b l -> (forall y, In y l -> (y <= b)%Q) ->
  (a == b)%Q.
Proof. intros Ha Hla Hb Hlb. apply Qle_antisym; auto. Qed.

(** Minimum and maximum of a row after [x -> gain * x + offset]. *)
Lemma py_min_max_rescaled (r : list Q) (gain offset lo hi : Q) :
  py_min r = Ok lo -> py_max r = Ok hi ->
  In lo r -> In hi r -> (forall x, In x r -> (lo <= x <= hi)%Q) ->
  exists lo' hi',
    py_min (map (fun x => gain * x + offset)%Q r) = Ok lo'
    /\ py_max (map (fun x => gain * x + offset)%Q r) = Ok hi'
    /\ ((0 < gain)%Q ->
        (lo' == gain * lo + offset)%Q /\ (hi' == gain * hi + offset)%Q)
    /\ ((gain < 0)%Q ->
        (lo' == gain * hi + offset)%Q /\ (hi' == gain * lo + offset)%Q).
Proof.
  intros Hlo Hhi Hlo_in Hhi_in Hb.
  set (f := (fun x => gain * x + offset)%Q).
  assert (Hne : map f r <> []) by (destruct r; [contradiction | discriminate]).
  destruct (py_min_max_bounds (map f r) Hne)
    as (lo' & hi' & Hlo' & Hhi' & Hlo'_in & Hhi'_in & Hb').
  exists lo', hi'. split; [exact Hlo'|]. split; [exact Hhi'|].
  assert (Hin : forall x, In x r -> In (f x) (map f r))
    by (intros; apply in_map; assumption).
  assert (Hstep : forall z (P : Q -> Prop),
            (forall x, In x r -> (lo <= x <= hi)%Q -> P (f x)) ->
            In z (map f r) -> P z).
  { intros z P HP Hz. apply in_map_iff in Hz. destruct Hz as (x & <- & Hx).
    apply HP; [exact Hx | apply Hb, Hx]. }
  split; intros Hg.
  - split.
    + apply (least_unique (map f r) lo' (f lo) Hlo'_in
               (fun z Hz => proj1 (Hb' z Hz)) (Hin lo Hlo_in)).
      intros z. apply (Hstep z (fun w => (f lo <= w)%Q)). intros x _ [Hl Hu]. unfold f. nra.
    + apply (greatest_unique (map f r) hi' (f hi) Hhi'_in
               (fun z Hz => proj2 (Hb' z Hz)) (Hin hi Hhi_in)).
      intros z. apply (Hstep z (fun w => (w <= f hi)%Q)). intros x _ [Hl Hu]. unfold f. nra.
  - split.
    + apply (least_unique (map f r) lo' (f hi) Hlo'_in
               (fun z Hz => proj1 (Hb' z Hz)) (Hin hi Hhi_in)).
      intros z. apply (Hstep z (fun w => (f hi <= w)%Q)). intros x _ [Hl Hu]. unfold f. nra.
    + apply (greatest_unique (map f r) hi' (f lo) Hhi'_in
               (fun z Hz => proj2 (Hb' z Hz)) (Hin lo Hlo_in)).
      intros z. apply (Hstep z (fun w => (w <= f lo)%Q)). intros x _ [Hl Hu]. unfold f. nra.
Qed.

(** One normalised sample after a rescaling with positive gain. *)
Lemma normalized_sample_pos (gain x lo hi n' d' : Q) :
  (0 < gain)%Q -> (lo <= x <= hi)%Q ->
  (n' == gain * (x - lo))%Q -> (d' == gain * (hi - lo))%Q ->
  feq (fdiv (Fin n') (Fin d')) (fdiv (Fin (x - lo)) (Fin (hi - lo))).
Proof.
  intros Hg [Hl Hu] Hn Hd. unfold fdiv.
  destruct (Qeq_bool (hi - lo) 0) eqn:E.
  - apply Qeq_bool_iff in E.
    assert (E' : Qeq_bool d' 0 = true)
      by (apply Qeq_bool_iff; rewrite Hd, E; ring).
    assert (Ex : Qeq_bool (x - lo) 0 = true) by (apply Qeq_bool_iff; lra).
    assert (Ex' : Qeq_bool n' 0 = true).
    { apply Qeq_bool_iff in Ex. apply Qeq_bool_iff. rewrite Hn, Ex. ring. }
    rewrite E', Ex, Ex'. exact I.
  - apply Qeq_bool_neq in E.
    assert (E' : Qeq_bool d' 0 = false).
    { destruct (Qeq_bool d' 0) eqn:E'; [|reflexivity].
      apply Qeq_bool_iff in E'. exfalso. apply E. nra. }
    rewrite E'. cbn [feq]. rewrite Hn, Hd. field. split; lra.
Qed.

(** One normalised sample after a rescaling with negative gain. *)
Lemma normalized_sample_neg (gain x lo hi n' d' : Q) :
  (gain < 0)%Q -> (lo <= x <= hi)%Q ->
  (n' == gain * (x - hi))%Q -> (d' == gain * (lo - hi))%Q ->
  feq (fdiv (Fin n') (Fin d'))
      (fsub (Fin 1) (fdiv (Fin (x - lo)) (Fin (hi - lo)))).
Proof.
  intros Hg [Hl Hu] Hn Hd. unfold fdiv.
  destruct (Qeq_bool (hi - lo) 0) eqn:E.
  - apply Qeq_bool_iff in E.
    assert (E' : Qeq_bool d' 0 = true).
    { apply Qeq_bool_iff. rewrite Hd.
      setoid_replace (lo - hi)%Q with (- (hi - lo))%Q by ring.
      rewrite E. ring. }
    assert (Ex : Qeq_bool (x - lo) 0 = true) by (apply Qeq_bool_iff; lra).
    assert (Ex' : Qeq_bool n' 0 = true).
    { apply Qeq_bool_iff. rewrite Hn.
      setoid_replace (x - hi)%Q with 0%Q by lra. ring. }
    rewrite E', Ex, Ex'. exact I.
  - apply Qeq_bool_neq in E.
    assert (E' : Qeq_bool d' 0 = false).
    { destruct (Qeq_bool d' 0) eqn:E'; [|reflexivity].
      apply Qeq_bool_iff in E'. exfalso. apply E. nra. }
    rewrite E'. cbn [feq fsub]. rewrite Hn, Hd. field. split; lra.
Qed.

Lemma py_index_map {A B : Type} (f : A -> B) (l : list A) (i : Z) :
  py_index (map f l) i
  = match py_index l i with Ok a => Ok (f a) | Raise e => Raise e end.
Proof.
  unfold py_index, len. rewrite length_map.
  destruct ((i <? - Z.of_nat (length l)) || (Z.of_nat (length l) <=? i));
    [reflexivity|].
  rewrite nth_error_map. destruct (nth_error l _); reflexivity.
Qed.

(** Normalisation after a rescaling of the row. *)
Lemma normalize_rescaled (r : list Q) (gain offset : Q) :
  r <> [] ->
  exists n n',
    normalize_1D_array r = Ok n
    /\ normalize_1D_array (map (fun x => gain * x + offset)%Q r) = Ok n'
    /\ ((0 < gain)%Q -> Forall2 feq n' n)
    /\ ((gain < 0)%Q ->
        Forall2 feq n' (map (fun v => fsub (Fin 1) v) n)).
Proof.
  intros Hne.
  destruct (py_min_max_bounds r Hne)
    as (lo & hi & Hlo & Hhi & Hlo_in & Hhi_in & Hb).
  destruct (py_min_max_rescaled r gain offset lo hi Hlo Hhi Hlo_in Hhi_in Hb)
    as (lo' & hi' & Hlo' & Hhi' & Hpos & Hneg).
  do 2 eexists.
  split; [apply (normalize_unfold r lo hi Hlo Hhi)|].
  split; [apply (normalize_unfold _ lo' hi' Hlo' Hhi')|].
  clear Hlo Hhi Hlo' Hhi' Hlo_in Hhi_in Hne.
  split; intros Hg.
  - destruct (Hpos Hg) as [El Eh]. clear Hpos Hneg.
    induction r as [|x t IH]; [constructor|].
    cbn [map]. constructor.
    + apply normalized_sample_pos with gain;
        [exact Hg | apply Hb; left; reflexivity | |].
      * rewrite El. ring.
      * rewrite El, Eh. ring.
    + apply IH. intros z Hz. apply Hb. right. exact Hz.
  - destruct (Hneg Hg) as [El Eh]. clear Hpos Hneg.
    induction r as [|x t IH]; [constructor|].
    cbn [map]. constructor.
    + apply normalized_sample_neg with gain;
        [exact Hg | apply Hb; left; reflexivity | |].
      * rewrite El. ring.
      * rewrite El, Eh. ring.
    + apply IH. intros z Hz. apply Hb. right. exact Hz.
Qed.

Lemma Forall2_invert_both (a b : list float64) :
  Forall2 feq a b ->
  Forall2 feq (map (fun v => fsub (Fin 1) v) a)
              (map (fun v => fsub (Fin 1) v) b).
Proof.
  induction 1; cbn [map]; constructor; auto using fsub_one_compat.
Qed.

Lemma Forall2_invert_left (a b : list float64) :
  Forall2 feq a (map (fun v => fsub (Fin 1) v) b) ->
  Forall2 feq (map (fun v => fsub (Fin 1) v) a) b.
Proof.
  revert a. induction b as [|y b IH]; intros a H; inversion H; subst;
    cbn [map]; constructor.
  - apply feq_trans with (fsub (Fin 1) (fsub (Fin 1) y)).
    + apply fsub_one_compat. assumption.
    + apply fsub_one_involutive.
  - apply IH. assumption.
Qed.

(** X9: Brightness and contrast do not matter: replacing every sample [x] of
    the image by [gain * x + offset] with a positive gain leaves every row
    profile unchanged (and the failures too). *)
Theorem profile_invariant_under_gain_offset (img : image) (row : Z)
    (gain offset : Q) (invert_profile : bool) :
  (0 < gain)%Q ->
  same_profile
    (get_intensity_profile (rescale_image gain offset img) row invert_profile)
    (get_intensity_profile img row invert_profile).
Proof.
  intros Hg. unfold get_intensity_profile, rescale_image.
  rewrite py_index_map.
  destruct (py_index img row) as [r|e]; cbn [bind]; [|reflexivity].
  destruct r as [|x t]; [reflexivity|].
  destruct (normalize_rescaled (x :: t) gain offset ltac:(discriminate))
    as (n & n' & Hn & Hn' & Hpos & _).
  rewrite Hn, Hn'. cbn [bind].
  destruct invert_profile; cbn [same_profile].
  - apply Forall2_invert_both, Hpos, Hg.
  - apply Hpos, Hg.
Qed.

Lemma profile_invariant_under_gain_offset_witness :
  same_profile
    (get_intensity_profile (rescale_image 2 (1 # 3) sample_image) 0 true)
    (get_intensity_profile sample_image 0 true).
Proof.
  apply (profile_invariant_under_gain_offset sample_image 0 2 (1 # 3) true).
  reflexivity.
Defined.

(** X10: Inverting the image is what [invert_profile] undoes: with a negative
    gain (for instance [x -> 255 - x]) the profile of the rescaled image
    without inversion is the profile of the original image with inversion,
    and the other way round. *)
Theorem profile_of_negated_image (img : image) (row : Z)
    (gain offset : Q) (invert_profile : bool) :
  (gain < 0)%Q ->
  same_profile
    (get_intensity_profile (rescale_image gain offset img) row invert_profile)
    (get_intensity_profile img row (negb invert_profile)).
Proof.
  intros Hg. unfold get_intensity_profile, rescale_image.
  rewrite py_index_map.
  destruct (py_index img row) as [r|e]; cbn [bind]; [|reflexivity].
  destruct r as [|x t]; [reflexivity|].
  destruct (normalize_rescaled (x :: t) gain offset ltac:(discriminate))
    as (n & n' & Hn & Hn' & _ & Hneg).
  rewrite Hn, Hn'. cbn [bind].
  destruct invert_profile; cbn [same_profile negb].
  - apply Forall2_invert_left, Hneg, Hg.
  - apply Hneg, Hg.
Qed.

Lemma profile_of_negated_image_witness :
  same_profile
    (get_intensity_profile (rescale_image (-1) 255 sample_image) 0 false)
    (get_intensity_profile sample_image 0 (negb false)).
Proof.
  apply (profile_of_negated_image sample_image 0 (-1) 255 false).
  reflexivity.
Defined.

(** ** Edge positions *)

Lemma plateau_len_cons (v a b : float64) (t : list float64) :
  plateau_len v (a :: b :: t)
  = if feqb a v then S (plateau_len v (b :: t)) else O.
Proof. reflexivity. Qed.

Lemma plateau_len_lt (v : float64) (ahead : list float64) :
  ahead <> [] -> (plateau_len v ahead < length ahead)%nat.
Proof.
  induction ahead as [|a t IH]; [congruence|]. intros _.
  destruct t as [|b t']; [cbn; lia|].
  rewrite plateau_len_cons. destruct (feqb a v); [|cbn; lia].
  assert (H : b :: t' <> []) by discriminate.
  specialize (IH H). cbn [length] in *. lia.
Qed.

Lemma plateau_len_equal (v : float64) (ahead : list float64) (m : nat) :
  (m < plateau_len v ahead)%nat -> feqb (nth m ahead NaN) v = true.
Proof.
  revert m. induction ahead as [|a t IH]; intros m Hm; [cbn in Hm; lia|].
  destruct t as [|b t']; [cbn in Hm; lia|].
  rewrite plateau_len_cons in Hm. destruct (feqb a v) eqn:E; [|lia].
  destruct m as [|m]; [exact E|].
  cbn [nth]. apply IH. lia.
Qed.

(** Where the loop can still report a peak: not before the samples it
    skips, and never at the last sample. *)
Lemma local_maxima_from_range (rest : list float64) :
  forall prev i skip p,
    In p (local_maxima_from prev i rest skip) ->
    i + Z.of_nat skip <= p <= i + len rest - 2.
Proof.
  induction rest as [|xi rest' IH]; intros prev i skip p Hp;
    [contradiction|].
  cbn [local_maxima_from] in Hp.
  destruct rest' as [|b t]; [contradiction|].
  assert (Hlen : len (xi :: b :: t) = len (b :: t) + 1)
    by (unfold len; cbn [length]; lia).
  destruct skip as [|s].
  - assert (Hrec : forall sk,
              In p (local_maxima_from xi (i + 1) (b :: t) sk) ->
              i + Z.of_nat 0 <= p <= i + len (xi :: b :: t) - 2).
    { intros sk H. apply IH in H. lia. }
    destruct (flt prev xi); [|apply (Hrec O), Hp].
    destruct (flt (nth (plateau_len xi (b :: t)) (b :: t) NaN) xi);
      [|apply (Hrec O), Hp].
    destruct Hp as [<- | Hp]; [|eapply Hrec, Hp].
    pose proof (plateau_len_lt xi (b :: t) ltac:(discriminate)) as Hk.
    unfold len in *. Z.div_mod_to_equations. lia.
  - apply IH in Hp. lia.
Qed.

Lemma local_maxima_from_sorted (rest : list float64) :
  forall prev i skip,
    StronglySorted Z.lt (local_maxima_from prev i rest skip).
Proof.
  induction rest as [|xi rest' IH]; intros prev i skip; [constructor|].
  cbn [local_maxima_from].
  destruct rest' as [|b t]; [constructor|].
  destruct skip as [|s]; [|apply IH].
  destruct (flt prev xi); [|apply IH].
  destruct (flt (nth (plateau_len xi (b :: t)) (b :: t) NaN) xi);
    [|apply IH].
  constructor; [apply IH|].
  apply Forall_forall. intros p Hp.
  apply local_maxima_from_range in Hp.
  Z.div_mod_to_equations. lia.
Qed.

Lemma filter_keeps_order {A : Type} (R : A -> A -> Prop)
    (f : A -> bool) (l : list A) :
  StronglySorted R l -> StronglySorted R (filter f l).
Proof.
  induction 1 as [|a l Hs IH Hall]; cbn [filter]; [constructor|].
  destruct (f a); [|exact IH].
  constructor; [exact IH|].
  apply Forall_forall. intros x Hx. apply filter_In in Hx.
  rewrite Forall_forall in Hall. apply Hall. tauto.
Qed.

Lemma find_peaks_sorted (x : list float64) (t : Q) :
  StronglySorted Z.lt (find_peaks x t).
Proof.
  unfold find_peaks, local_maxima_1d. apply filter_keeps_order.
  destruct x; [constructor | apply local_maxima_from_sorted].
Qed.

Lemma find_peaks_interior (x : list float64) (t : Q) (p : Z) :
  In p (find_peaks x t) ->
  0 < p < len x - 1 /\ fle (Fin t) (sample_at x p) = true.
Proof.
  unfold find_peaks, local_maxima_1d. intros Hp.
  apply filter_In in Hp. destruct Hp as [Hp Hh]. split; [|exact Hh].
  destruct x as [|x0 rest]; [contradiction|].
  apply local_maxima_from_range in Hp.
  unfold len in *. cbn [length]. lia.
Qed.

Lemma fle_opp (t : Q) (v : float64) :
  fle (Fin t) (fopp v) = fle v (Fin (- t)).
Proof.
  destruct v as [q| | |]; cbn; try reflexivity.
  destruct (Qle_bool t (- q)) eqn:E1, (Qle_bool q (- t)) eqn:E2;
    try reflexivity.
  - apply Qle_bool_iff in E1.
    assert (H : (q <= - t)%Q) by lra.
    apply Qle_bool_iff in H. congruence.
  - apply Qle_bool_iff in E2.
    assert (H : (t <= - q)%Q) by lra.
    apply Qle_bool_iff in H. congruence.
Qed.

Lemma sample_at_opp (x : list float64) (p : Z) :
  sample_at (map fopp x) p = fopp (sample_at x p).
Proof.
  unfold sample_at. change NaN with (fopp NaN) at 1. apply map_nth.
Qed.

(** X14: Both edge lists come out in strictly increasing order, hold no position
    twice, never hold the first or the last index of the derivative, and
    every leading edge sits on a sample at or above the threshold, every
    trailing edge on a sample at or below minus the threshold. *)
Theorem edges_sorted_interior_thresholded (dy : list float64) (t : Q) :
  let le := get_leading_edge_positions dy t in
  let te := get_trailing_edge_positions dy t in
  StronglySorted Z.lt le /\ StronglySorted Z.lt te
  /\ NoDup le /\ NoDup te
  /\ (forall p, In p le ->
        0 < p < len dy - 1 /\ fle (Fin t) (sample_at dy p) = true)
  /\ (forall p, In p te ->
        0 < p < len dy - 1 /\ fle (sample_at dy p) (Fin (- t)) = true).
Proof.
  intros le te. subst le te.
  unfold get_leading_edge_positions, get_trailing_edge_positions.
  assert (Hnodup : forall l, StronglySorted Z.lt l -> NoDup l).
  { induction 1 as [|a l Hs IH Hall]; constructor; [|exact IH].
    intros Hin. rewrite Forall_forall in Hall. specialize (Hall a Hin). lia. }
  split; [apply find_peaks_sorted|]. split; [apply find_peaks_sorted|].
  split; [apply Hnodup, find_peaks_sorted|].
  split; [apply Hnodup, find_peaks_sorted|].
  split.
  - intros p Hp. apply find_peaks_interior, Hp.
  - intros p Hp. apply find_peaks_interior in Hp.
    destruct Hp as [Hr Hh]. split.
    + unfold len in *. rewrite length_map in Hr. exact Hr.
    + rewrite sample_at_opp, fle_opp in Hh. exact Hh.
Qed.

Lemma edges_sorted_interior_thresholded_witness :
  0 < 3 < len sample_dy - 1
  /\ fle (Fin 2) (sample_at sample_dy 3) = true.
Proof.
  apply (proj1 (proj2 (proj2 (proj2 (proj2
           (edges_sorted_interior_thresholded sample_dy 2)))))).
  vm_compute. auto.
Defined.

Lemma fopp_involutive (v : float64) : fopp (fopp v) = v.
Proof.
  destruct v as [[n d]| | |]; cbn; try reflexivity.
  unfold Qopp. cbn. rewrite Z.opp_involutive. reflexivity.
Qed.

Lemma map_fopp_involutive (x : list float64) : map fopp (map fopp x) = x.
Proof.
  rewrite map_map. induction x as [|v t IH]; [reflexivity|].
  cbn [map]. rewrite fopp_involutive, IH. reflexivity.
Qed.

(** X15: With a positive threshold no position is both a leading and a trailing
    edge; and negating the derivative (inverting the contrast of the
    profile) exchanges the two edge lists. *)
Theorem leading_and_trailing_edges_disjoint (dy : list float64) (t : Q) :
  ((0 < t)%Q ->
   forall p, In p (get_leading_edge_positions dy t) ->
             ~ In p (get_trailing_edge_positions dy t))
  /\ get_leading_edge_positions (map fopp dy) t
     = get_trailing_edge_positions dy t
  /\ get_trailing_edge_positions (map fopp dy) t
     = get_leading_edge_positions dy t.
Proof.
  unfold get_leading_edge_positions, get_trailing_edge_positions.
  split; [|split; [reflexivity | rewrite map_fopp_involutive; reflexivity]].
  intros Ht p Hl Hr.
  apply find_peaks_interior in Hl. apply find_peaks_interior in Hr.
  destruct Hl as [_ Hl]. destruct Hr as [_ Hr].
  rewrite sample_at_opp, fle_opp in Hr.
  destruct (sample_at dy p) as [q| | |]; cbn in Hl, Hr; try discriminate.
  apply Qle_bool_iff in Hl. apply Qle_bool_iff in Hr. lra.
Qed.

Lemma leading_and_trailing_edges_disjoint_witness :
  ~ In 3 (get_trailing_edge_positions sample_dy 2).
Proof.
  apply (proj1 (leading_and_trailing_edges_disjoint sample_dy 2)).
  - reflexivity.
  - vm_compute. auto.
Defined.

Lemma skipn_cons_nth {A : Type} (x : list A) (n : nat) (a d : A)
    (t : list A) :
  skipn n x = a :: t -> nth n x d = a /\ skipn (S n) x = t.
Proof.
  revert n. induction x as [|b x IH]; intros n H.
  - destruct n; discriminate.
  - destruct n as [|n].
    + cbn in H. injection H as -> ->. split; reflexivity.
    + cbn [skipn] in H. destruct (IH n H) as [H1 H2]. split; assumption.
Qed.

Lemma nth_after_skipn {A : Type} (x : list A) (n m : nat) (d : A) :
  nth m (skipn n x) d = nth (n + m) x d.
Proof.
  revert n. induction x as [|b x IH]; intros n.
  - destruct n, m; reflexivity.
  - destruct n as [|n]; [reflexivity|]. cbn [skipn Nat.add nth]. apply IH.
Qed.

Lemma flt_true_feqb_refl (u v : float64) :
  flt u v = true -> feqb v v = true.
Proof.
  destruct v as [q| | |]; destruct u; cbn; try discriminate; auto.
  all: intros _; apply Qeq_bool_refl.
Qed.

Lemma local_maxima_from_sound (x rest : list float64) :
  forall prev i skip p,
    1 <= i ->
    rest = skipn (Z.to_nat i) x ->
    prev = sample_at x (i - 1) ->
    In p (local_maxima_from prev i rest skip) ->
    is_plateau_peak x p.
Proof.
  induction rest as [|xi rest' IH]; intros prev i skip p Hi Hrest Hprev Hp;
    [contradiction|].
  cbn [local_maxima_from] in Hp.
  destruct rest' as [|b t]; [contradiction|].
  symmetry in Hrest.
  destruct (skipn_cons_nth x _ xi NaN _ Hrest) as [Hxi Hrest'].
  assert (Hnext : forall sk,
            In p (local_maxima_from xi (i + 1) (b :: t) sk) ->
            is_plateau_peak x p).
  { intros sk H. apply (IH xi (i + 1) sk p); [lia | | | exact H].
    - rewrite <- Hrest'. f_equal. lia.
    - unfold sample_at. rewrite <- Hxi. f_equal. lia. }
  destruct skip as [|s]; [|apply (Hnext s), Hp].
  destruct (flt prev xi) eqn:Hrise; [|apply (Hnext O), Hp].
  set (k := plateau_len xi (b :: t)) in *.
  destruct (flt (nth k (b :: t) NaN) xi) eqn:Hfall; [|apply (Hnext O), Hp].
  destruct Hp as [<- | Hp]; [|apply (Hnext (S k)), Hp].
  pose proof (plateau_len_lt xi (b :: t) ltac:(discriminate)) as Hk.
  fold k in Hk.
  assert (Hlen : (length (b :: t) = length x - S (Z.to_nat i))%nat)
    by (rewrite <- Hrest'; apply length_skipn).
  assert (Hxi' : sample_at x i = xi) by exact Hxi.
  exists i, (i + Z.of_nat k).
  split; [exact Hi|]. split; [Z.div_mod_to_equations; lia|].
  split; [unfold len; lia|]. split; [reflexivity|].
  rewrite Hxi'. split; [rewrite <- Hprev; exact Hrise|]. split.
  - unfold sample_at.
    replace (Z.to_nat (i + Z.of_nat k + 1)) with (S (Z.to_nat i) + k)%nat
      by lia.
    rewrite <- nth_after_skipn, Hrest'. exact Hfall.
  - intros j Hj. destruct (Z.eq_dec j i) as [-> | Hne].
    + rewrite Hxi'. apply (flt_true_feqb_refl prev), Hrise.
    + unfold sample_at.
      replace (Z.to_nat j)
        with (S (Z.to_nat i) + (Z.to_nat j - S (Z.to_nat i)))%nat by lia.
      rewrite <- nth_after_skipn, Hrest'.
      apply plateau_len_equal. fold k. lia.
Qed.

(** X16: Every leading edge is a genuine local maximum of the derivative: it is
    the middle (rounded down) of a run of equal samples, inside the signal,
    whose neighbours on both sides are strictly lower; every trailing edge
    is such a maximum of the negated derivative. *)
Theorem edges_are_plateau_peaks (dy : list float64) (t : Q) :
  (forall p, In p (get_leading_edge_positions dy t) ->
             is_plateau_peak dy p)
  /\ (forall p, In p (get_trailing_edge_positions dy t) ->
                is_plateau_peak (map fopp dy) p).
Proof.
  assert (H : forall x p, In p (find_peaks x t) -> is_plateau_peak x p).
  { intros x p Hp. unfold find_peaks in Hp. apply filter_In in Hp.
    destruct Hp as [Hp _]. unfold local_maxima_1d in Hp.
    destruct x as [|x0 rest]; [contradiction|].
    apply (local_maxima_from_sound (x0 :: rest) rest x0 1 O p);
      [lia | reflexivity | reflexivity | exact Hp]. }
  split; intros p Hp; apply H, Hp.
Qed.

Lemma edges_are_plateau_peaks_witness :
  is_plateau_peak sample_dy 3.
Proof.
  apply (proj1 (edges_are_plateau_peaks sample_dy 2)).
  vm_compute. auto.
Defined.

(** ** Translation values *)

Lemma mapM_ext {A B : Type} (f g : A -> result B) (l : list A) :
  (forall a, f a = g a) -> mapM f l = mapM g l.
Proof.
  intros H. induction l as [|a t IH]; [reflexivity|].
  cbn [mapM]. rewrite H, IH. reflexivity.
Qed.

Lemma translation_at_shift (le te : list Z) (scale : Q) (c i : Z) :
  translation_at (map (Z.add c) le) (map (Z.add c) te) scale i
  = translation_at le te scale i.
Proof.
  unfold translation_at. rewrite !py_index_map.
  destruct (py_index le ((i + 1) * 2)) as [a|e]; cbn [bind]; [|reflexivity].
  destruct (py_index te (i * 2 + 1)) as [b|e]; cbn [bind]; [|reflexivity].
  destruct (py_index le (i * 2 + 1)) as [a'|e]; cbn [bind]; [|reflexivity].
  destruct (py_index te (i * 2)) as [b'|e]; cbn [bind]; [|reflexivity].
  replace (c + a - (c + b) - (c + a' - (c + b')))
    with (a - b - (a' - b')) by lia.
  reflexivity.
Qed.

(** X19: The translation values depend on the spacing of the edges only: moving
    every leading and every trailing edge by the same number of pixels
    changes neither the values, nor their standard deviation, nor the
    failure. *)
Theorem translation_shift_invariant (L : Lib) (le te : list Z) (scale : Q)
    (c : Z) :
  translation_of_edges L (map (Z.add c) le) (map (Z.add c) te) scale
  = translation_of_edges L le te scale.
Proof.
  unfold translation_of_edges, len. rewrite length_map.
  rewrite (mapM_ext _ (translation_at le te scale));
    [reflexivity | intros i; apply translation_at_shift].
Qed.

(** X20: On a perfectly periodic pattern, where the k-th leading edge is at
    [p0 + k * d] and the k-th trailing edge at [q0 + k * d], and there are
    as many trailing as leading edges, [get_translation] returns, and every
    translation value it returns is zero. *)
Theorem periodic_pattern_has_zero_translation (L : Lib)
    (profile dy : list float64) (scale : Q) (p0 q0 d : Z) :
  filter_data L (get_intensity_profile_dy profile 5) 3 (1 # 10) = Ok dy ->
  let le := get_leading_edge_positions dy (1 # 10) in
  let te := get_trailing_edge_positions dy (1 # 10) in
  len te = len le ->
  (forall k, 0 <= k < len le -> edge_at le k = p0 + k * d) ->
  (forall k, 0 <= k < len te -> edge_at te k = q0 + k * d) ->
  exists T,
    get_translation L profile scale = Ok (T, np_std L T)
    /\ len T = Z.max 0 (len le / 2 - 1)
    /\ Forall (fun v => feq v (Fin 0)) T.
Proof.
  intros Hdy le te Hlen Hle Hte.
  assert (Hn : 2 * (len le / 2 - 1) + 2 <= len le)
    by (Z.div_mod_to_equations; lia).
  exists (map (translation_value le te scale) (range 0 (len le / 2 - 1))).
  split; [|split].
  - rewrite (get_translation_unfold L profile dy scale Hdy).
    apply translation_of_edges_in_bounds. fold le te. intros i Hi. lia.
  - unfold len at 1. rewrite length_map.
    fold (len (range 0 (len le / 2 - 1))). rewrite len_range. lia.
  - apply Forall_forall. intros v Hv. apply in_map_iff in Hv.
    destruct Hv as (i & <- & Hi). apply in_range in Hi.
    unfold translation_value.
    rewrite !Hle, !Hte by lia.
    replace (p0 + (i + 1) * 2 * d - (q0 + (i * 2 + 1) * d)
             - (p0 + (i * 2 + 1) * d - (q0 + i * 2 * d))) with 0 by lia.
    cbn [feq]. field.
Qed.

Lemma periodic_pattern_has_zero_translation_witness :
  exists T,
    get_translation plain_lib periodic_profile (1 # 2)
    = Ok (T, np_std plain_lib T)
    /\ len T = 3
    /\ Forall (fun v => feq v (Fin 0)) T.
Proof.
  assert (Hle : get_leading_edge_positions
                  (get_intensity_profile_dy periodic_profile 5) (1 # 10)
                = [1; 6; 11; 16; 21; 26; 31; 36])
    by (vm_compute; reflexivity).
  assert (Hte : get_trailing_edge_positions
                  (get_intensity_profile_dy periodic_profile 5) (1 # 10)
                = [3; 8; 13; 18; 23; 28; 33; 38])
    by (vm_compute; reflexivity).
  apply (periodic_pattern_has_zero_translation plain_lib periodic_profile
           (get_intensity_profile_dy periodic_profile 5) (1 # 2) 1 3 5).
  - vm_compute. reflexivity.
  - rewrite Hle, Hte. reflexivity.
  - rewrite Hle. intros k Hk. change (len _) with 8 in Hk.
    assert (Hcases : k = 0 \/ k = 1 \/ k = 2 \/ k = 3 \/ k = 4 \/ k = 5
                     \/ k = 6 \/ k = 7) by lia.
    repeat (destruct Hcases as [-> | Hcases]; [reflexivity|]).
    subst k. reflexivity.
  - rewrite Hte. intros k Hk. change (len _) with 8 in Hk.
    assert (Hcases : k = 0 \/ k = 1 \/ k = 2 \/ k = 3 \/ k = 4 \/ k = 5
                     \/ k = 6 \/ k = 7) by lia.
    repeat (destruct Hcases as [-> | Hcases]; [reflexivity|]).
    subst k. reflexivity.
Defined.

(** ** A single line *)

Lemma py_index_width (le te : list Z) (scale : Q) (idx : Z) :
  0 <= idx < Z.of_nat (Nat.min (length le) (length te)) ->
  py_index (map (width_of scale) (combine le te)) idx
  = Ok (Fin (inject_Z (edge_at te idx - edge_at le idx) * scale)).
Proof.
  intros H.
  assert (Hlen : len (map (width_of scale) (combine le te))
                 = Z.of_nat (Nat.min (length le) (length te)))
    by (unfold len; rewrite length_map, length_combine; reflexivity).
  rewrite (py_index_in_bounds _ idx NaN) by lia. f_equal.
  assert (Hl : (Z.to_nat idx < length le)%nat) by lia.
  assert (Ht : (Z.to_nat idx < length te)%nat) by lia.
  apply (nth_error_nth' le 0) in Hl. apply (nth_error_nth' te 0) in Ht.
  apply nth_error_nth.
  rewrite nth_error_map, (nth_error_combine _ _ _ _ _ Hl Ht).
  reflexivity.
Qed.

(** X22: [get_single_line_width] computes the widths and spreads of all lines
    first: a failure on any line is the failure of the call.  When that
    computation returns, with [m = min(len(leading_edges),
    len(trailing_edges))] lines, an index in [0, m) gives the width
    [(trailing_edges[i] - leading_edges[i]) * scale], a negative index in
    [-m, 0) counts from the last line, and any other index raises
    [IndexError]. *)
Theorem single_line_width_by_index (L : Lib) (img : image)
    (mp : list float64) (le te : list Z) (scale : Q) (lineIdx : Z) :
  let m := Z.of_nat (Nat.min (length le) (length te)) in
  (forall e, get_line_width_data L img mp le te scale = Raise e ->
             get_single_line_width L img mp le te scale lineIdx = Raise e)
  /\ (is_ok (get_line_width_data L img mp le te scale) = true ->
      (0 <= lineIdx < m ->
       exists s,
         get_single_line_width L img mp le te scale lineIdx
         = Ok (Fin (inject_Z (edge_at te lineIdx - edge_at le lineIdx)
                    * scale), s))
      /\ (- m <= lineIdx < 0 ->
          get_single_line_width L img mp le te scale lineIdx
          = get_single_line_width L img mp le te scale (lineIdx + m))
      /\ (lineIdx < - m \/ m <= lineIdx ->
          get_single_line_width L img mp le te scale lineIdx
          = Raise IndexError)).
Proof.
  intros m. unfold get_single_line_width. split.
  - intros e He. rewrite He. reflexivity.
  - destruct (get_line_width_data L img mp le te scale) as [[ws ss]|e] eqn:E;
      [|discriminate].
    intros _. cbn [bind].
    destruct (get_line_width_data_widths _ _ _ _ _ _ _ _ E) as [Hws Hss].
    assert (Hlw : len ws = m)
      by (subst ws; unfold len;
          rewrite length_map, length_combine; reflexivity).
    assert (Hls : len ss = m) by (unfold len in *; lia).
    split; [|split].
    + intros Hidx. rewrite Hws, py_index_width by exact Hidx. cbn [bind].
      rewrite (py_index_in_bounds ss lineIdx NaN) by lia. cbn [bind].
      eexists. reflexivity.
    + intros Hidx.
      rewrite (py_index_negative ws) by lia.
      rewrite (py_index_negative ss) by lia.
      rewrite Hlw, Hls. reflexivity.
    + intros [Hidx | Hidx].
      * rewrite (py_index_before_start ws) by lia. reflexivity.
      * rewrite (py_index_past_end ws) by lia. reflexivity.
Qed.

Lemma single_line_width_by_index_witness :
  exists s,
    get_single_line_width plain_lib line_image line_profile [12] [18]
                          (1 # 2) 0
    = Ok (Fin (inject_Z (edge_at [18] 0 - edge_at [12] 0) * (1 # 2)), s).
Proof.
  apply (proj1 (proj2 (single_line_width_by_index plain_lib line_image
                         line_profile [12] [18] (1 # 2) 0)
                  ltac:(vm_compute; reflexivity))).
  vm_compute. split; [discriminate | reflexivity].
Defined.

(** ** The padded window at the left border *)

Lemma py_slice_wrapped_empty {A : Type} (l : list A) (start stop : Z) :
  start < 0 -> 0 <= stop -> stop <= start + len l ->
  py_slice l start stop = [].
Proof.
  intros Hs Hp Hle. unfold py_slice, slice_bound.
  destruct (start <? 0) eqn:E1; [|apply Z.ltb_ge in E1; lia].
  destruct (stop <? 0) eqn:E2; [apply Z.ltb_lt in E2; lia|].
  replace (Z.to_nat (Z.min stop (len l) - Z.max (start + len l) 0))
    with O by lia.
  reflexivity.
Qed.

(** X23: A line whose leading edge is closer than the margin of 10 pixels to the
    left border cannot be measured: the start of the padded window is
    negative, numpy counts it from the right border, the window is empty,
    and normalising its first row raises [ValueError]; the whole call fails
    whenever such a line is among the paired edges. *)
Theorem left_border_line_fails (L : Lib) (img : image) (mp : list float64)
    (scale : Q) (peak valley : Z) :
  img <> [] ->
  0 <= peak < 10 ->
  peak <= valley ->
  valley - peak + 20 <= shape1 img ->
  line_width_and_std L img mp scale (peak, valley) = Raise ValueError
  /\ forall le te,
       In (peak, valley) (combine le te) ->
       is_ok (get_line_width_data L img mp le te scale) = false.
Proof.
  intros Hne Hpeak Hvalley Hfit.
  assert (Hbody :
    line_width_and_std L img mp scale (peak, valley) = Raise ValueError).
  { destruct img as [|r0 rows]; [congruence|].
    unfold line_width_and_std, slice_cols, shape0.
    cbn [map]. unfold len at 1. cbn [length].
    unfold range.
    replace (Z.to_nat (Z.of_nat (S (length (map _ rows))) - 0))
      with (S (length rows)) by (rewrite length_map; lia).
    cbn [range_from mapM]. unfold lw_difference, get_intensity_profile.
    rewrite py_index_head. cbn [bind].
    cbn [shape1] in Hfit.
    rewrite py_slice_wrapped_empty by lia. reflexivity. }
  split; [exact Hbody|].
  intros le te Hin. rewrite get_line_width_data_returns.
  apply not_true_is_false. intros Hall.
  rewrite forallb_forall in Hall. specialize (Hall _ Hin).
  rewrite Hbody in Hall. discriminate.
Qed.

Lemma left_border_line_fails_witness :
  line_width_and_std plain_lib line_image line_profile (1 # 2) (5, 12)
  = Raise ValueError.
Proof.
  apply (proj1 (left_border_line_fails plain_lib line_image line_profile
                  (1 # 2) 5 12 ltac:(discriminate) ltac:(lia) ltac:(lia)
                  ltac:(vm_compute; discriminate))).
Defined.

(** ** Rotation on a short image *)

(** X21: An image with fewer than 11 rows has no row 10: [get_rotation] raises
    [IndexError]. *)
Theorem get_rotation_needs_eleven_rows (L : Lib) (img : image) (scale : Q) :
  shape0 img <= 10 -> get_rotation L img scale = Raise IndexError.
Proof.
  intros H. rewrite get_rotation_closed_form.
  unfold single_row_band, get_intensity_profile.
  rewrite py_index_past_end by exact H. reflexivity.
Qed.

Lemma get_rotation_needs_eleven_rows_witness :
  get_rotation plain_lib line_image (1 # 2) = Raise IndexError.
Proof.
  apply get_rotation_needs_eleven_rows. vm_compute. discriminate.
Defined.

(** ** Mean profile *)

Lemma normalize_length (r : list Q) :
  r <> [] ->
  exists n, normalize_1D_array r = Ok n /\ length n = length r.
Proof.
  intros Hne.
  destruct (py_min_max_bounds r Hne) as (lo & hi & Hlo & Hhi & _).
  eexists. split; [apply (normalize_unfold r lo hi Hlo Hhi)|].
  apply length_map.
Qed.

Lemma py_index_row (img : image) (row : Z) :
  rect img -> 0 <= row < shape0 img ->
  exists r, py_index img row = Ok r /\ len r = shape1 img.
Proof.
  intros Hrect Hrow. unfold shape0 in Hrow.
  rewrite (py_index_in_bounds img row []) by exact Hrow.
  eexists. split; [reflexivity|].
  unfold rect in Hrect. rewrite Forall_forall in Hrect.
  apply Hrect, nth_In. unfold len in Hrow. lia.
Qed.

(** The inverted profile of a row of a rectangular image with at least one
    column exists and is as long as the image is wide. *)
Lemma row_profile_length (img : image) (row : Z) :
  rect img -> 1 <= shape1 img -> 0 <= row < shape0 img ->
  exists p,
    get_intensity_profile img row true = Ok p /\ len p = shape1 img.
Proof.
  intros Hrect Hc Hrow.
  destruct (py_index_row img row Hrect Hrow) as (r & Hr & Hlen).
  assert (Hne : r <> []) by (intros ->; unfold len in Hlen; cbn in Hlen; lia).
  destruct (normalize_length r Hne) as (n & Hn & Hnl).
  unfold get_intensity_profile. rewrite Hr. cbn [bind]. rewrite Hn.
  cbn [bind]. eexists. split; [reflexivity|].
  unfold len in *. rewrite length_map. lia.
Qed.

Lemma mapM_all_ok {A B : Type} (f : A -> result B) (P : B -> Prop)
    (l : list A) :
  (forall a, In a l -> exists b, f a = Ok b /\ P b) ->
  exists bs, mapM f l = Ok bs /\ length bs = length l /\ Forall P bs.
Proof.
  induction l as [|a t IH]; intros H.
  - exists []. repeat split. constructor.
  - destruct (H a (or_introl eq_refl)) as (b & Hb & HP).
    destruct IH as (bs & Hbs & Hlen & Hall);
      [intros; apply H; right; assumption|].
    exists (b :: bs). cbn [mapM]. rewrite Hb. cbn [bind]. rewrite Hbs.
    cbn [bind length]. repeat split; auto.
Qed.

Lemma np_broadcast2_same_length (f : float64 -> float64 -> float64)
    (a b : list float64) :
  length a = length b ->
  np_broadcast2 f a b = Ok (map (fun p => f (fst p) (snd p)) (combine a b)).
Proof.
  intros H. unfold np_broadcast2.
  apply Nat.eqb_eq in H. rewrite H. reflexivity.
Qed.

Lemma sum_arrays_length (rows : list (list float64)) :
  forall acc,
    Forall (fun r => length r = length acc) rows ->
    exists s, sum_arrays acc rows = Ok s /\ length s = length acc.
Proof.
  induction rows as [|r t IH]; intros acc H.
  - exists acc. split; reflexivity.
  - inversion H as [|? ? Hr Ht]; subst. cbn [sum_arrays].
    rewrite np_broadcast2_same_length by (symmetry; exact Hr). cbn [bind].
    set (acc' := map _ (combine acc r)).
    assert (Hacc' : length acc' = length acc)
      by (subst acc'; rewrite length_map, length_combine; lia).
    destruct (IH acc') as (s & Hs & Hlen).
    + rewrite Hacc'. exact Ht.
    + exists s. split; [exact Hs | lia].
Qed.

(** X12: For a rectangular image with at least one column: a row range that ends
    before it starts raises [ValueError]; a non-empty range inside the image
    gives a profile as long as the image is wide; a range that reaches past
    the last row raises [IndexError]. *)
Theorem mean_profile_shape_and_failures (img : image)
    (starting_row ending_row : Z) :
  rect img -> 1 <= shape1 img ->
  (ending_row < starting_row ->
   get_mean_intensity_profile img starting_row ending_row = Raise ValueError)
  /\ (0 <= starting_row < ending_row -> ending_row <= shape0 img ->
      exists p,
        get_mean_intensity_profile img starting_row ending_row
        = Ok (Array1 p)
        /\ len p = shape1 img)
  /\ (0 <= starting_row < ending_row -> shape0 img < ending_row ->
      get_mean_intensity_profile img starting_row ending_row
      = Raise IndexError).
Proof.
  intros Hrect Hc. unfold get_mean_intensity_profile. split; [|split].
  - intros H. destruct (ending_row - starting_row <? 0) eqn:E;
      [reflexivity | apply Z.ltb_ge in E; lia].
  - intros Hrange Hend.
    destruct (ending_row - starting_row <? 0) eqn:E;
      [apply Z.ltb_lt in E; lia|].
    destruct (mapM_all_ok (fun row => get_intensity_profile img row true)
                (fun p => len p = shape1 img)
                (range starting_row ending_row))
      as (ps & Hps & Hlen & Hall).
    { intros row Hrow. apply in_range in Hrow.
      apply row_profile_length; [assumption | assumption | lia]. }
    rewrite Hps. cbn [bind].
    destruct ps as [|p0 ps'].
    { exfalso. unfold range in Hlen. rewrite length_range_from in Hlen.
      cbn in Hlen. lia. }
    inversion Hall as [|? ? Hp0 Hrest]; subst.
    unfold mean_of_arrays.
    destruct (sum_arrays_length ps' p0) as (s & Hs & Hsl).
    { apply Forall_forall. intros r Hr. rewrite Forall_forall in Hrest.
      specialize (Hrest r Hr). unfold len in *. lia. }
    rewrite Hs. cbn [bind]. eexists. split; [reflexivity|].
    unfold len in *. rewrite length_map. lia.
  - intros Hrange Hend.
    destruct (ending_row - starting_row <? 0) eqn:E;
      [apply Z.ltb_lt in E; lia|].
    assert (Hsplit : exists first,
              starting_row <= first < ending_row /\ shape0 img <= first
              /\ forall row, starting_row <= row < first ->
                             0 <= row < shape0 img).
    { pose proof (len_nonneg img). unfold shape0 in *.
      exists (Z.max starting_row (len img)).
      split; [lia|]. split; [lia|]. intros row Hrow. lia. }
    destruct Hsplit as (first & Hfirst & Hout & Hin).
    rewrite (range_split starting_row first ending_row Hfirst).
    assert (Hprefix : forall row, In row (range starting_row first) ->
              get_intensity_profile img row true
              = Ok (match get_intensity_profile img row true with
                    | Ok p => p | Raise _ => [] end)).
    { intros row Hrow. apply in_range in Hrow.
      destruct (row_profile_length img row Hrect Hc (Hin row Hrow))
        as (p & Hp & _).
      rewrite Hp. reflexivity. }
    rewrite (mapM_raise_at _ _ _ _ _ IndexError Hprefix); [reflexivity|].
    unfold get_intensity_profile.
    rewrite py_index_past_end by exact Hout. reflexivity.
Qed.

Lemma mean_profile_shape_and_failures_witness :
  exists p,
    get_mean_intensity_profile line_image 0 2 = Ok (Array1 p)
    /\ len p = shape1 line_image.
Proof.
  apply (proj1 (proj2 (mean_profile_shape_and_failures line_image 0 2
                         ltac:(repeat constructor)
                         ltac:(vm_compute; discriminate)))).
  - lia.
  - vm_compute. discriminate.
Defined.

Lemma add_nan_left (r : list float64) :
  map (fun p => fadd (fst p) (snd p)) (combine (repeat NaN (length r)) r)
  = repeat NaN (length r).
Proof. induction r as [|x t IH]; cbn; [reflexivity | f_equal; exact IH]. Qed.

Lemma add_nan_right (a : list float64) :
  map (fun p => fadd (fst p) (snd p)) (combine a (repeat NaN (length a)))
  = repeat NaN (length a).
Proof.
  induction a as [|x t IH]; cbn; [reflexivity|].
  f_equal; [destruct x; reflexivity | exact IH].
Qed.

(** Once a nan row entered the sum, the sum stays nan at every index. *)
Lemma sum_arrays_nan (rows : list (list float64)) :
  forall acc,
    Forall (fun r => length r = length acc) rows ->
    acc = repeat NaN (length acc)
    \/ Exists (fun r => r = repeat NaN (length r)) rows ->
    sum_arrays acc rows = Ok (repeat NaN (length acc)).
Proof.
  induction rows as [|r t IH]; intros acc Hlen Hnan.
  - destruct Hnan as [Hacc | Hex]; [|inversion Hex].
    cbn. f_equal. exact Hacc.
  - inversion Hlen as [|? ? Hr Ht]; subst. cbn [sum_arrays].
    rewrite np_broadcast2_same_length by (symmetry; exact Hr). cbn [bind].
    set (acc' := map _ (combine acc r)).
    assert (Hacc' : length acc' = length acc)
      by (subst acc'; rewrite length_map, length_combine; lia).
    assert (Hstep : acc = repeat NaN (length acc)
                    \/ r = repeat NaN (length r) ->
                    acc' = repeat NaN (length acc')).
    { rewrite Hacc'. subst acc'. remember (length acc) as n eqn:Hn.
      intros [Hacc | Hhead].
      - rewrite Hacc. subst n. rewrite <- Hr. apply add_nan_left.
      - rewrite Hhead, Hr. subst n. apply add_nan_right. }
    rewrite <- Hacc'. apply IH.
    + rewrite Hacc'. exact Ht.
    + destruct Hnan as [Hacc | Hex]; [left; apply Hstep; left; exact Hacc|].
      inversion Hex as [? ? Hhead | ? ? Htail]; subst.
      * left. apply Hstep. right. exact Hhead.
      * right. exact Htail.
Qed.

Lemma Forall2_image {A B : Type} (R : A -> B -> Prop) (l : list A)
    (l' : list B) (a : A) :
  Forall2 R l l' -> In a l -> exists b, In b l' /\ R a b.
Proof.
  induction 1 as [|x y l l' Hxy _ IH]; intros Hin; [contradiction|].
  destruct Hin as [<- | Hin].
  - exists y. split; [left; reflexivity | exact Hxy].
  - destruct (IH Hin) as (b & Hb & HR). exists b. split; [right|]; assumption.
Qed.

(** X13: One constant row inside the row range is enough to lose the mean
    profile: the row normalises to nan, nan survives the sum over the rows,
    and the call returns, without an exception, a profile that is nan at
    every index. *)
Theorem constant_row_poisons_mean_profile (img : image)
    (starting_row ending_row k : Z) (r : list Q) (v : Q) :
  rect img -> 1 <= shape1 img ->
  0 <= starting_row -> starting_row <= k < ending_row ->
  ending_row <= shape0 img ->
  py_index img k = Ok r -> Forall (fun x => x == v) r ->
  get_mean_intensity_profile img starting_row ending_row
  = Ok (Array1 (repeat NaN (Z.to_nat (shape1 img)))).
Proof.
  intros Hrect Hc Hstart Hk Hend Hrow Hconst.
  unfold get_mean_intensity_profile.
  destruct (ending_row - starting_row <? 0) eqn:E;
    [apply Z.ltb_lt in E; lia|].
  destruct (mapM_all_ok (fun row => get_intensity_profile img row true)
              (fun p => len p = shape1 img)
              (range starting_row ending_row))
    as (ps & Hps & Hlen & Hall).
  { intros row Hin. apply in_range in Hin.
    apply row_profile_length; [assumption | assumption | lia]. }
  rewrite Hps. cbn [bind].
  assert (Hnan : Exists (fun p => p = repeat NaN (length p)) ps).
  { destruct (Forall2_image _ _ _ k (mapM_Forall2 _ _ _ Hps)) as (p & Hp & Hk').
    { apply in_range. lia. }
    apply Exists_exists. exists p. split; [exact Hp|].
    destruct (py_index_row img k Hrect ltac:(lia)) as (r' & Hr' & Hrl).
    assert (r' = r) by congruence. subst r'.
    assert (Hne : r <> [])
      by (intros ->; unfold len in Hrl; cbn in Hrl; lia).
    unfold get_intensity_profile in Hk'. rewrite Hrow in Hk'.
    cbn [bind] in Hk'.
    rewrite (normalize_constant r v Hne Hconst) in Hk'. cbn [bind] in Hk'.
    injection Hk' as <-. rewrite map_repeat, repeat_length. reflexivity. }
  assert (Hlens : Forall (fun p => length p = Z.to_nat (shape1 img)) ps).
  { apply Forall_forall. intros p Hp. rewrite Forall_forall in Hall.
    specialize (Hall p Hp). unfold len in Hall. lia. }
  destruct ps as [|p0 ps']; [inversion Hnan|].
  unfold mean_of_arrays.
  inversion Hlens as [|? ? Hp0 Hrest]; subst.
  rewrite (sum_arrays_nan ps' p0).
  - cbn [bind]. rewrite map_repeat, Hp0. reflexivity.
  - apply Forall_forall. intros p Hp. rewrite Forall_forall in Hrest.
    rewrite (Hrest p Hp). symmetry. exact Hp0.
  - inversion Hnan as [? ? Hhead | ? ? Htail]; subst; [left | right];
      assumption.
Qed.

Lemma constant_row_poisons_mean_profile_witness :
  get_mean_intensity_profile banded_image 10 13
  = Ok (Array1 (repeat NaN (Z.to_nat (shape1 banded_image)))).
Proof.
  apply (constant_row_poisons_mean_profile banded_image 10 13 11
           (repeat 1%Q 38) 1).
  - unfold rect. repeat constructor.
  - vm_compute. discriminate.
  - lia.
  - lia.
  - vm_compute. discriminate.
  - reflexivity.
  - repeat constructor.
Defined.

(** ** Cropping *)

Lemma in_firstn_in {A : Type} (l : list A) (n : nat) (a : A) :
  In a (firstn n l) -> In a l.
Proof.
  revert n. induction l as [|x t IH]; intros n H.
  - destruct n; contradiction.
  - destruct n as [|n]; [contradiction|].
    destruct H as [<- | H]; [left; reflexivity | right; apply (IH n), H].
Qed.

Lemma in_skipn_in {A : Type} (l : list A) (n : nat) (a : A) :
  In a (skipn n l) -> In a l.
Proof.
  revert n. induction l as [|x t IH]; intros n H.
  - destruct n; contradiction.
  - destruct n as [|n]; [exact H | right; apply (IH n), H].
Qed.

Lemma firstn_beyond {A : Type} (l : list A) (n m : nat) :
  (length l <= n)%nat -> (length l <= m)%nat -> firstn n l = firstn m l.
Proof. intros Hn Hm. rewrite !firstn_all2 by assumption. reflexivity. Qed.

(** X5: With zero margins [crop_image] returns the top-left square of the
    image, of side [min(R, C)]: it never returns the image itself unless the
    image is square. *)
Theorem crop_zero_margins_is_top_left_square (img : image) :
  rect img ->
  let m := Z.min (shape0 img) (shape1 img) in
  crop_image img 0 0 0 0
  = map (firstn (Z.to_nat m)) (firstn (Z.to_nat m) img)
  /\ shape0 (crop_image img 0 0 0 0) = m
  /\ Forall (fun row => len row = m) (crop_image img 0 0 0 0).
Proof.
  intros Hrect m.
  pose proof (len_nonneg img) as Hr.
  assert (Hc : 0 <= shape1 img)
    by (destruct img; cbn; [lia | apply len_nonneg]).
  assert (Hcrop : crop_image img 0 0 0 0
                  = map (firstn (Z.to_nat m)) (firstn (Z.to_nat m) img)).
  { unfold crop_image, slice2d. rewrite !Z.sub_0_r.
    rewrite py_slice_prefix by exact Hc.
    assert (Hrows : firstn (Z.to_nat (shape1 img)) img
                    = firstn (Z.to_nat m) img).
    { destruct (Z.le_gt_cases (shape1 img) (shape0 img)) as [Hle | Hgt].
      - subst m. rewrite Z.min_r by exact Hle. reflexivity.
      - subst m. rewrite Z.min_l by lia.
        apply firstn_beyond; unfold shape0, len in *; lia. }
    rewrite Hrows. apply map_ext_in. intros row Hrow.
    apply in_firstn_in in Hrow.
    unfold rect in Hrect. rewrite Forall_forall in Hrect.
    specialize (Hrect row Hrow).
    rewrite py_slice_prefix by exact Hr.
    destruct (Z.le_gt_cases (shape0 img) (shape1 img)) as [Hle | Hgt].
    - subst m. rewrite Z.min_l by exact Hle. reflexivity.
    - subst m. rewrite Z.min_r by lia.
      apply firstn_beyond; unfold len in *; lia. }
  split; [exact Hcrop|]. rewrite Hcrop. split.
  - unfold shape0, len. rewrite length_map, length_firstn.
    subst m. unfold shape0, len in *. lia.
  - apply Forall_forall. intros row Hrow. apply in_map_iff in Hrow.
    destruct Hrow as (row0 & <- & Hrow0). apply in_firstn_in in Hrow0.
    unfold rect in Hrect. rewrite Forall_forall in Hrect.
    specialize (Hrect row0 Hrow0).
    subst m. unfold shape0, len in *. rewrite length_firstn. lia.
Qed.

Lemma crop_zero_margins_is_top_left_square_witness :
  crop_image sample_image 0 0 0 0
  = map (firstn 2) (firstn 2 sample_image).
Proof.
  apply (proj1 (crop_zero_margins_is_top_left_square sample_image
                  ltac:(repeat constructor))).
Defined.

Lemma py_slice_inner {A : Type} (l : list A) (a b : Z) :
  0 <= a <= b -> b <= len l ->
  py_slice l a b = firstn (Z.to_nat (b - a)) (skipn (Z.to_nat a) l).
Proof.
  intros Hab Hb. unfold py_slice, slice_bound.
  destruct (a <? 0) eqn:E1; [apply Z.ltb_lt in E1; lia|].
  destruct (b <? 0) eqn:E2; [apply Z.ltb_lt in E2; lia|].
  rewrite !Z.min_l by lia. reflexivity.
Qed.

Lemma py_slice_inner_nth {A : Type} (l : list A) (a b j : Z) (d : A) :
  0 <= a <= b -> b <= len l -> 0 <= j < b - a ->
  len (py_slice l a b) = b - a
  /\ nth (Z.to_nat j) (py_slice l a b) d = nth (Z.to_nat (a + j)) l d.
Proof.
  intros Hab Hb Hj. rewrite py_slice_inner by assumption. split.
  - unfold len in *. rewrite length_firstn, length_skipn. lia.
  - rewrite nth_firstn.
    destruct (Z.to_nat j <? Z.to_nat (b - a))%nat eqn:E;
      [|apply Nat.ltb_ge in E; lia].
    rewrite nth_after_skipn. f_equal. lia.
Qed.

Lemma py_slice_inner_len {A : Type} (l : list A) (a b : Z) :
  0 <= a <= b -> b <= len l -> len (py_slice l a b) = b - a.
Proof.
  intros Hab Hb. rewrite py_slice_inner by assumption.
  unfold len in *. rewrite length_firstn, length_skipn. lia.
Qed.

(** X6: On a square image of side [n], with non-negative margins that leave
    something to crop, [crop_image] does what its docstring says: the
    result has [n - top - bottom] rows of [n - left - right] samples, and
    its sample (i, j) is the sample (top + i, left + j) of the image. *)
Theorem crop_square_image (img : image) (n top bottom left right : Z) :
  rect img -> shape0 img = n -> shape1 img = n ->
  0 <= top -> 0 <= bottom -> 0 <= left -> 0 <= right ->
  top + bottom <= n -> left + right <= n ->
  let out := crop_image img top bottom left right in
  shape0 out = n - top - bottom
  /\ Forall (fun row => len row = n - left - right) out
  /\ forall i j,
       0 <= i < n - top - bottom -> 0 <= j < n - left - right ->
       nth (Z.to_nat j) (nth (Z.to_nat i) out []) 0%Q
       = nth (Z.to_nat (left + j)) (nth (Z.to_nat (top + i)) img []) 0%Q.
Proof.
  intros Hrect HR HC Ht Hb Hl Hr Htb Hlr out.
  unfold rect in Hrect. rewrite Forall_forall in Hrect.
  subst out. unfold crop_image, slice2d. rewrite HR, HC.
  unfold shape0 in HR.
  assert (Hrows : len (py_slice img top (n - bottom)) = n - top - bottom)
    by (rewrite py_slice_inner_len; lia).
  assert (Hsub : forall row, In row (py_slice img top (n - bottom)) ->
                             len row = n).
  { intros row Hrow. rewrite py_slice_inner in Hrow by lia.
    apply in_firstn_in, in_skipn_in in Hrow. rewrite <- HC. apply Hrect, Hrow. }
  split; [|split].
  - unfold shape0, len in *. rewrite length_map. exact Hrows.
  - apply Forall_forall. intros row Hrow. apply in_map_iff in Hrow.
    destruct Hrow as (row0 & <- & Hrow0).
    rewrite py_slice_inner_len; [lia | lia | rewrite (Hsub _ Hrow0); lia].
  - intros i j Hi Hj.
    set (f := fun row : list Q => py_slice row left (n - right)).
    assert (Hi' : (Z.to_nat i < length (py_slice img top (n - bottom)))%nat)
      by (unfold len in Hrows; lia).
    rewrite (nth_indep (map f _) [] (f [])) by (rewrite length_map; exact Hi').
    rewrite map_nth.
    destruct (py_slice_inner_nth img top (n - bottom) i []
                ltac:(lia) ltac:(lia) ltac:(lia)) as [_ Hrow].
    rewrite Hrow. unfold f.
    assert (Hlen : len (nth (Z.to_nat (top + i)) img []) = n).
    { rewrite <- HC. apply Hrect, nth_In. unfold len in HR. lia. }
    destruct (py_slice_inner_nth (nth (Z.to_nat (top + i)) img [])
                left (n - right) j 0%Q
                ltac:(lia) ltac:(lia) ltac:(lia)) as [_ Hcol].
    exact Hcol.
Qed.

Lemma crop_square_image_witness :
  shape0 (crop_image [[1; 2; 3]; [4; 5; 6]; [7; 8; 9]]%Q 1 0 0 1) = 3 - 1 - 0.
Proof.
  apply (crop_square_image [[1; 2; 3]; [4; 5; 6]; [7; 8; 9]]%Q 3 1 0 0 1
           ltac:(repeat constructor) eq_refl eq_refl
           ltac:(lia) ltac:(lia) ltac:(lia) ltac:(lia)
           ltac:(lia) ltac:(lia)).
Defined.

(** ** The peaks do not depend on the representation of the samples *)

Lemma Qltb_compat (a a' b b' : Q) :
  (a == a')%Q -> (b == b')%Q -> Qltb a b = Qltb a' b'.
Proof.
  intros Ha Hb. unfold Qltb. f_equal. apply Qleb_comp; assumption.
Qed.

Lemma flt_compat (a a' b b' : float64) :
  feq a a' -> feq b b' -> flt a b = flt a' b'.
Proof.
  destruct a, a', b, b'; cbn; intros H1 H2;
    try contradiction; try reflexivity.
  apply Qltb_compat; assumption.
Qed.

Lemma fle_compat (a a' b b' : float64) :
  feq a a' -> feq b b' -> fle a b = fle a' b'.
Proof.
  destruct a, a', b, b'; cbn; intros H1 H2;
    try contradiction; try reflexivity.
  apply Qleb_comp; assumption.
Qed.

Lemma feqb_compat (a a' b b' : float64) :
  feq a a' -> feq b b' -> feqb a b = feqb a' b'.
Proof.
  destruct a, a', b, b'; cbn; intros H1 H2;
    try contradiction; try reflexivity.
  apply Qeqb_comp; assumption.
Qed.

Lemma nth_compat (l l' : list float64) (k : nat) :
  Forall2 feq l l' -> feq (nth k l NaN) (nth k l' NaN).
Proof.
  intros H. revert k. induction H as [|x y l l' Hxy _ IH]; intros k.
  - destruct k; exact I.
  - destruct k as [|k]; [exact Hxy | apply IH].
Qed.

Lemma plateau_len_compat (v v' : float64) (l l' : list float64) :
  feq v v' -> Forall2 feq l l' -> plateau_len v l = plateau_len v' l'.
Proof.
  intros Hv H. induction H as [|x y l l' Hxy Hl IH]; [reflexivity|].
  destruct Hl as [|x2 y2 l2 l2' Hxy2 Hl2]; [reflexivity|].
  rewrite !plateau_len_cons, (feqb_compat x y v v' Hxy Hv), IH.
  reflexivity.
Qed.

Lemma local_maxima_from_compat (rest rest' : list float64) :
  Forall2 feq rest rest' ->
  forall prev prev' i skip,
    feq prev prev' ->
    local_maxima_from prev i rest skip
    = local_maxima_from prev' i rest' skip.
Proof.
  induction 1 as [|xi yi rest rest' Hxy Hrest IH];
    intros prev prev' i skip Hprev; [reflexivity|].
  cbn [local_maxima_from].
  destruct Hrest as [|b b' t t' Hb Ht]; [reflexivity|].
  assert (Htail : Forall2 feq (b :: t) (b' :: t')) by (constructor; assumption).
  destruct skip as [|s]; [|apply IH, Hxy].
  rewrite (flt_compat prev prev' xi yi Hprev Hxy).
  rewrite (plateau_len_compat xi yi _ _ Hxy Htail).
  rewrite (flt_compat _ _ xi yi
             (nth_compat _ _ (plateau_len yi (b' :: t')) Htail) Hxy).
  destruct (flt prev' yi); [|apply IH, Hxy].
  destruct (flt _ yi); [f_equal|]; apply IH, Hxy.
Qed.

(** The peaks do not depend on how the rationals are written. *)
Lemma find_peaks_compat (x x' : list float64) (t : Q) :
  Forall2 feq x x' -> find_peaks x t = find_peaks x' t.
Proof.
  intros H. unfold find_peaks, local_maxima_1d.
  assert (Hmax : match x with [] => [] | x0 :: r => local_maxima_from x0 1 r O
                 end
                 = match x' with [] => []
                   | x0 :: r => local_maxima_from x0 1 r O end).
  { destruct H as [|x0 y0 r r' H0 Hr]; [reflexivity|].
    apply local_maxima_from_compat; assumption. }
  rewrite Hmax. apply filter_ext. intros p.
  apply fle_compat; [apply Qeq_refl | apply nth_compat, H].
Qed.

(** ** The regions of the info bar *)






(** ** Completeness of the edge search *)

Lemma flt_asym (a b : float64) : flt a b = true -> flt b a = false.
Proof.
  destruct a, b; cbn; try discriminate; try reflexivity.
  intros H. apply Qltb_true in H. apply Qltb_false. apply Qlt_le_weak, H.
Qed.

Lemma feqb_feq (a b : float64) : feqb a b = true -> feq a b.
Proof.
  destruct a, b; cbn; try discriminate; try (intros; exact I).
  apply Qeq_bool_eq.
Qed.

Lemma flt_irrefl (a : float64) : flt a a = false.
Proof.
  destruct a; cbn; try reflexivity. apply Qltb_false, Qle_refl.
Qed.

Lemma flt_feqb_false (a b : float64) :
  flt a b = true -> feqb a b = false.
Proof.
  intros H. destruct (feqb a b) eqn:E; [|reflexivity].
  apply feqb_feq in E.
  rewrite (flt_compat a b b b E (feq_refl b)), flt_irrefl in H.
  discriminate.
Qed.

(** After a peak the samples the loop skips are the rest of the plateau and
    the lower sample behind it: none of them rises. *)
Lemma no_rise_after_plateau (xi : float64) (rest : list float64) :
  forall prev,
    feq prev xi ->
    flt (nth (plateau_len xi rest) rest NaN) xi = true ->
    no_rise prev rest (S (plateau_len xi rest)).
Proof.
  induction rest as [|a t IH]; intros prev Hprev Hfall; [exact I|].
  destruct t as [|b t'].
  - cbn in Hfall |- *. split; [|destruct prev; exact I].
    rewrite (flt_compat prev xi a a Hprev (feq_refl a)).
    apply flt_asym, Hfall.
  - rewrite plateau_len_cons in Hfall |- *.
    destruct (feqb a xi) eqn:E.
    + cbn [nth] in Hfall. cbn [no_rise]. split.
      * apply feqb_feq in E.
        rewrite (flt_compat prev xi a xi Hprev E). apply flt_irrefl.
      * apply IH; [apply feqb_feq, E | exact Hfall].
    + cbn [nth] in Hfall. cbn [no_rise]. split; [|exact I].
      rewrite (flt_compat prev xi a a Hprev (feq_refl a)).
      apply flt_asym, Hfall.
Qed.

Lemma local_maxima_from_complete (rest : list float64) :
  forall prev i skip m,
    no_rise prev rest skip ->
    flt (match m with O => prev | S m' => nth m' rest NaN end)
        (nth m rest NaN) = true ->
    flt (nth (S m) rest NaN) (nth m rest NaN) = true ->
    In (i + Z.of_nat m) (local_maxima_from prev i rest skip).
Proof.
  induction rest as [|xi rest' IH]; intros prev i skip m Hskip Hrise Hfall.
  - destruct m; cbn in Hfall; discriminate.
  - cbn [local_maxima_from].
    destruct rest' as [|b t].
    { destruct m as [|[|m]]; cbn in Hfall; discriminate. }
    assert (Hnext : forall sk m',
              m = S m' -> no_rise xi (b :: t) sk ->
              In (i + Z.of_nat m)
                 (local_maxima_from xi (i + 1) (b :: t) sk)).
    { intros sk m' -> Hsk.
      replace (i + Z.of_nat (S m')) with (i + 1 + Z.of_nat m') by lia.
      apply IH; [exact Hsk | | exact Hfall].
      destruct m'; exact Hrise. }
    destruct skip as [|s].
    + destruct (flt prev xi) eqn:Hprev.
      * set (k := plateau_len xi (b :: t)).
        destruct m as [|m'].
        -- cbn [nth] in Hfall.
           assert (Hk : k = O).
           { subst k. destruct t as [|c t']; [reflexivity|].
             rewrite plateau_len_cons, (flt_feqb_false _ _ Hfall).
             reflexivity. }
           rewrite Hk. cbn [nth]. rewrite Hfall. left.
           cbn [Z.of_nat]. Z.div_mod_to_equations. lia.
        -- destruct (flt (nth k (b :: t) NaN) xi) eqn:Hk.
           ++ right. apply (Hnext (S k) m' eq_refl).
              apply no_rise_after_plateau; [apply feq_refl | exact Hk].
           ++ apply (Hnext O m' eq_refl). exact I.
      * destruct m as [|m']; [cbn in Hrise; congruence|].
        apply (Hnext O m' eq_refl). exact I.
    + cbn [no_rise] in Hskip. destruct Hskip as [Hflat Hskip].
      destruct m as [|m']; [cbn in Hrise; congruence|].
      apply (Hnext s m' eq_refl). exact Hskip.
Qed.

(** X17: No isolated peak is missed: a position strictly inside the derivative
    whose sample is strictly above both neighbours and at least the
    threshold is among the leading edges; one whose sample is strictly below
    both neighbours and at most minus the threshold is among the trailing
    edges. *)
Theorem strict_peaks_are_found (dy : list float64) (t : Q) (p : Z) :
  0 < p ->
  (flt (sample_at dy (p - 1)) (sample_at dy p) = true ->
   flt (sample_at dy (p + 1)) (sample_at dy p) = true ->
   fle (Fin t) (sample_at dy p) = true ->
   In p (get_leading_edge_positions dy t))
  /\ (flt (sample_at dy p) (sample_at dy (p - 1)) = true ->
      flt (sample_at dy p) (sample_at dy (p + 1)) = true ->
      fle (sample_at dy p) (Fin (- t)) = true ->
      In p (get_trailing_edge_positions dy t)).
Proof.
  intros Hp.
  assert (Hfind : forall x,
            flt (sample_at x (p - 1)) (sample_at x p) = true ->
            flt (sample_at x (p + 1)) (sample_at x p) = true ->
            fle (Fin t) (sample_at x p) = true ->
            In p (find_peaks x t)).
  { intros x Hrise Hfall Hheight. unfold find_peaks.
    apply filter_In. split; [|exact Hheight].
    unfold local_maxima_1d, sample_at in *.
    destruct x as [|x0 rest].
    { destruct (Z.to_nat p); cbn in Hrise; discriminate. }
    replace (Z.to_nat p) with (S (Z.to_nat (p - 1))) in * by lia.
    replace (Z.to_nat (p + 1)) with (S (S (Z.to_nat (p - 1)))) in * by lia.
    replace (Z.to_nat (p - 1 - 1)) with (Z.to_nat (p - 1) - 1)%nat in *
      by lia.
    replace p with (1 + Z.of_nat (Z.to_nat (p - 1))) at 1 by lia.
    cbn [nth] in Hrise, Hfall.
    apply local_maxima_from_complete;
      [destruct rest; exact I | exact Hrise | exact Hfall]. }
  split.
  - apply Hfind.
  - intros Hrise Hfall Hheight.
    unfold get_trailing_edge_positions. apply Hfind.
    + rewrite !sample_at_opp. destruct (sample_at dy (p - 1)),
        (sample_at dy p); cbn in *; try discriminate; try reflexivity.
      apply Qltb_true in Hrise. apply Qltb_true. lra.
    + rewrite !sample_at_opp. destruct (sample_at dy (p + 1)),
        (sample_at dy p); cbn in *; try discriminate; try reflexivity.
      apply Qltb_true in Hfall. apply Qltb_true. lra.
    + rewrite sample_at_opp, fle_opp. exact Hheight.
Qed.

Lemma strict_peaks_are_found_witness :
  In 3 (get_leading_edge_positions sample_dy 2).
Proof.
  apply (proj1 (strict_peaks_are_found sample_dy 2 3 ltac:(lia)));
    reflexivity.
Defined.

(** ** Line widths on an image without rows *)

(** X24: On an image with no rows nothing is normalised or filtered: the call
    returns a width for every pair of edges and a nan spread for each of
    them, whatever the library does. *)
Theorem line_widths_of_empty_image (L : Lib) (mp : list float64)
    (le te : list Z) (scale : Q) :
  get_line_width_data L [] mp le te scale
  = Ok (map (width_of scale) (combine le te),
        repeat NaN (Nat.min (length le) (length te))).
Proof.
  unfold get_line_width_data.
  rewrite (mapM_ext_in _ (fun e => (width_of scale e, NaN))).
  - cbn [bind]. rewrite !map_map. cbn [fst snd]. f_equal. f_equal.
    rewrite <- length_combine.
    induction (combine le te) as [|e t IH]; [reflexivity|].
    cbn [map length repeat]. f_equal. exact IH.
  - intros [peak valley] _. reflexivity.
Qed.
